(** * fears_md: the evolutionary simulation engine, embedded in Rocq

    A shallow embedding of [fears_md/population.py] (class [Population]:
    [initialize_population], [int_to_binary], [hammingDistance],
    [random_mutations], [check_stop_cond], [passage_cells], [abm],
    [run_abm]) and of [Experiment.set_ramp_ud] from
    [fears_md/experiment.py].

    Conventions of the embedding:
    - numpy integer arrays are [list Z]; numpy float arrays and Python
      floats are [list Q] and [Q], computed exactly (rounding of IEEE
      doubles, [inf] and [nan] are outside the model; where numpy would go
      on with a non-finite value the model stops with [NonFinite]);
    - a Python exception is an outcome [Raise e] of the [result] monad;
    - [np.random] is an oracle: every call receives the value drawn as an
      extra argument, and stops with [OffSupport] when that value has
      probability zero under the distribution numpy samples from. *)

From Stdlib Require Import Ascii String ZArith QArith Qround Qabs Bool Arith Lia Lqa List.
Import ListNotations.

(** ** Python outcomes *)

Module Py.

Inductive exn : Type :=
| Warning (msg : string)
| ValueError
| AssertionError
| IndexError
| OverflowError
| TypeError
| NameError
| ZeroDivisionError.

Inductive result (A : Type) : Type :=
| Ok (a : A)
| Raise (e : exn)
| OffSupport
| NonFinite.

Arguments Ok {A} a.
Arguments Raise {A} e.
Arguments OffSupport {A}.
Arguments NonFinite {A}.

Definition bind {A B : Type} (c : result A) (k : A -> result B) : result B :=
  match c with
  | Ok a => k a
  | Raise e => Raise e
  | OffSupport => OffSupport
  | NonFinite => NonFinite
  end.

Fixpoint mapM {A B : Type} (f : A -> result B) (l : list A) : result (list B) :=
  match l with
  | [] => Ok []
  | x :: l' => bind (f x) (fun y => bind (mapM f l') (fun ys => Ok (y :: ys)))
  end.

(** [a[i]] on a one-dimensional array, [i >= 0]. *)
Definition index {A : Type} (a : list A) (i : nat) : result A :=
  match nth_error a i with
  | Some x => Ok x
  | None => Raise IndexError
  end.

(** [a[i] = x] on a one-dimensional array, [i >= 0]. *)
Fixpoint set_index {A : Type} (a : list A) (i : nat) (x : A) : result (list A) :=
  match a, i with
  | [], _ => Raise IndexError
  | _ :: a', O => Ok (x :: a')
  | y :: a', S i' => bind (set_index a' i' x) (fun r => Ok (y :: r))
  end.

End Py.

Import Py.

Declare Scope py_scope.
Delimit Scope py_scope with py.
Notation "x <- c ;; k" := (Py.bind c (fun x => k))
  (at level 61, c at next level, right associativity) : py_scope.
Notation "' pat <- c ;; k" := (Py.bind c (fun x => match x with pat => k end))
  (at level 61, pat pattern, c at next level, right associativity) : py_scope.

Local Open Scope py_scope.

(** ** numpy array helpers *)

Module Np.

Fixpoint map2 {A B C : Type} (f : A -> B -> C) (a : list A) (b : list B) : list C :=
  match a, b with
  | x :: a', y :: b' => f x y :: map2 f a' b'
  | _, _ => []
  end.

(** Elementwise binary operation on two one-dimensional arrays, with
    numpy's broadcasting of a length-one operand. *)
Definition broadcast {A B C : Type} (f : A -> B -> C) (a : list A) (b : list B)
  : result (list C) :=
  if (length a =? length b)%nat then Ok (map2 f a b)
  else match a, b with
       | [x], _ => Ok (map (f x) b)
       | _, [y] => Ok (map (fun x => f x y) a)
       | _, _ => Raise ValueError
       end.

(** In-place [a op= b]: the result keeps the shape of [a]. *)
Definition inplace {A B : Type} (f : A -> B -> A) (a : list A) (b : list B)
  : result (list A) :=
  if (length a =? length b)%nat then Ok (map2 f a b)
  else match b with
       | [y] => Ok (map (fun x => f x y) a)
       | _ => Raise ValueError
       end.

(** [v[mask] = f(v[mask])] with a boolean mask of the same shape. *)
Definition masked {A : Type} (f : A -> A) (mask : list bool) (v : list A)
  : result (list A) :=
  if (length mask =? length v)%nat
  then Ok (map2 (fun (m : bool) x => if m then f x else x) mask v)
  else Raise IndexError.

Definition sumZ (v : list Z) : Z := fold_right Z.add 0%Z v.
Definition sumQ (v : list Q) : Q := fold_right Qplus 0%Q v.

Definition Qltb (x y : Q) : bool :=
  match Qcompare x y with Lt => true | _ => false end.
Definition Qeqb (x y : Q) : bool :=
  match Qcompare x y with Eq => true | _ => false end.

(** [int(x)] and the cast of a float to an integer dtype: truncation
    towards zero. *)
Definition Qtrunc (x : Q) : Z := Z.quot (Qnum x) (Zpos (Qden x)).

(** [a.argmax()]: index of the first maximal entry. *)
Fixpoint argmax_from {A : Type} (ltb : A -> A -> bool)
         (best : A) (ibest i : nat) (a : list A) : nat :=
  match a with
  | [] => ibest
  | x :: a' => if ltb best x then argmax_from ltb x i (S i) a'
               else argmax_from ltb best ibest (S i) a'
  end.

Definition argmax {A : Type} (ltb : A -> A -> bool) (a : list A) : result nat :=
  match a with
  | [] => Raise ValueError
  | x :: a' => Ok (argmax_from ltb x 0%nat 1%nat a')
  end.

(** [np.bincount(x, minlength=n)]. *)
Definition bincount (x : list nat) (minlength : nat) : list Z :=
  let len := match x with
             | [] => minlength
             | _ => Nat.max minlength (S (list_max x))
             end in
  map (fun i => Z.of_nat (count_occ Nat.eq_dec x i)) (seq 0 len).

(** [P[:, g]] on a two-dimensional array given as a list of rows. *)
Definition column {A : Type} (P : list (list A)) (g : nat) : result (list A) :=
  mapM (fun row => index row g) P.

End Np.

(** ** Genotype strings and the mutation matrix *)

Module Mutation.

Local Open Scope char_scope.

Fixpoint pos_digits (p : positive) : list ascii :=
  match p with
  | xH => ["1"]
  | xO q => pos_digits q ++ ["0"]
  | xI q => pos_digits q ++ ["1"]
  end.

(** [bin(num)[2:]] for [num >= 0]. *)
Definition bin (num : N) : list ascii :=
  match num with
  | N0 => ["0"]
  | Npos p => pos_digits p
  end.

(** [s.zfill(pad)] on a string without sign. *)
Definition zfill (pad : nat) (s : list ascii) : list ascii :=
  repeat "0" (pad - length s) ++ s.

(** [int_to_binary]: [pad = int(math.log(self.n_genotype, 2))]. *)
Definition int_to_binary (n_genotype : nat) (num : nat) : list ascii :=
  let pad := Nat.log2 n_genotype in
  zfill pad (bin (N.of_nat num)).

Fixpoint count_diff (s1 s2 : list ascii) : nat :=
  match s1, s2 with
  | ch1 :: r1, ch2 :: r2 =>
      ((if Ascii.eqb ch1 ch2 then 0 else 1) + count_diff r1 r2)%nat
  | _, _ => 0%nat
  end.

(** [hammingDistance]: the [assert] on the lengths, then the number of
    positions of the zip at which the characters differ. *)
Definition hammingDistance (s1 s2 : list ascii) : result nat :=
  if (length s1 =? length s2)%nat then Ok (count_diff s1 s2)
  else Raise AssertionError.

(** The double loop of [random_mutations] filling [trans_mat]. *)
Definition hamming_row (n_genotype N mm : nat) : result (list Q) :=
  mapM (fun nn =>
          d <- hammingDistance (int_to_binary n_genotype mm)
                               (int_to_binary n_genotype nn) ;;
          Ok (inject_Z (Z.of_nat d)))
       (seq 0 N).

Definition hamming_matrix (n_genotype N : nat) : result (list (list Q)) :=
  mapM (hamming_row n_genotype N) (seq 0 N).

(** [trans_mat[trans_mat > 1] = 0]. *)
Definition zero_above_one (m : list (list Q)) : list (list Q) :=
  map (map (fun x : Q => if Np.Qltb 1 x then 0%Q else x)) m.

(** [trans_mat.sum(axis=1)]: the vector of row sums. *)
Definition row_sums (m : list (list Q)) : list Q := map Np.sumQ m.

(** [trans_mat / v] for a two-dimensional [trans_mat] and a
    one-dimensional [v] of the same width: numpy aligns [v] with the last
    axis, so entry [(i, j)] is divided by [v[j]]. *)
Definition div_last_axis (m : list (list Q)) (v : list Q) : list (list Q) :=
  map (fun row => Np.map2 Qdiv row v) m.

(** A row sum equal to zero puts [nan] or [inf] in the matrix. *)
Definition random_mutations (n_genotype N : nat) : result (list (list Q)) :=
  trans_mat <- hamming_matrix n_genotype N ;;
  let trans_mat := zero_above_one trans_mat in
  let sums := row_sums trans_mat in
  if existsb (fun s => Np.Qeqb s 0) sums then NonFinite
  else Ok (div_last_axis trans_mat sums).

(** Entry [(i, j)] of a matrix given as a list of rows. *)
Definition entry (P : list (list Q)) (i j : nat) : Q := nth j (nth i P []) 0%Q.

(** [gen_neighbors]: [genotype ^ (1 << m)] for [m] in [range(n_allele)]. *)
Definition gen_neighbors (n_allele : nat) (genotype : nat) : list nat :=
  map (fun m => Nat.lxor genotype (Nat.shiftl 1 m)) (seq 0 n_allele).

End Mutation.

(** ** Parameters of a population ([PopParams.__init__])

    The attributes the simulation engine reads.  [None] defaults are
    [option]s; [stop_condition = None] is falsy and is [false] here.
    [timestep_scale], the rates and the doses are floats. *)

Record PopParams : Type := mkPopParams {
  death_rate : Q;
  mut_rate : Q;
  death_model : option string;
  constant_pop : bool;
  use_carrying_cap : bool;
  carrying_cap : Z;
  init_counts : option (list Q);
  n_allele : option nat;
  n_genotype : option nat;
  n_timestep : nat;
  timestep_scale : Q;
  passage : bool;
  passage_time : Z;
  dilution : Z;
  max_cells : Z;
  max_dose : Q;
  stop_condition : bool;
  debug : bool
}.

Definition default_params : PopParams := {|
  death_rate := 1 # 10;
  mut_rate := 1 # 1000000000;
  death_model := None;
  constant_pop := false;
  use_carrying_cap := true;
  carrying_cap := 10 ^ 8;
  init_counts := None;
  n_allele := None;
  n_genotype := None;
  n_timestep := 1000;
  timestep_scale := 1;
  passage := false;
  passage_time := 24;
  dilution := 40;
  max_cells := 10 ^ 9;
  max_dose := 10;
  stop_condition := false;
  debug := false
|}.


Definition with_genotypes (a g : option nat) (p : PopParams) : PopParams :=
  mkPopParams (death_rate p) (mut_rate p) (death_model p) (constant_pop p)
    (use_carrying_cap p) (carrying_cap p) (init_counts p) a g
    (n_timestep p) (timestep_scale p) (passage p) (passage_time p)
    (dilution p) (max_cells p) (max_dose p) (stop_condition p) (debug p).

Definition with_init_counts (c : option (list Q)) (p : PopParams) : PopParams :=
  mkPopParams (death_rate p) (mut_rate p) (death_model p) (constant_pop p)
    (use_carrying_cap p) (carrying_cap p) c (n_allele p)
    (n_genotype p) (n_timestep p) (timestep_scale p) (passage p) (passage_time p)
    (dilution p) (max_cells p) (max_dose p) (stop_condition p) (debug p).


Definition with_horizon (n : nat) (stop : bool) (p : PopParams) : PopParams :=
  mkPopParams (death_rate p) (mut_rate p) (death_model p) (constant_pop p)
    (use_carrying_cap p) (carrying_cap p) (init_counts p) (n_allele p)
    (n_genotype p) n (timestep_scale p) (passage p) (passage_time p)
    (dilution p) (max_cells p) (max_dose p) stop (debug p).

Definition with_mut_rate (r : Q) (p : PopParams) : PopParams :=
  mkPopParams (death_rate p) r (death_model p) (constant_pop p)
    (use_carrying_cap p) (carrying_cap p) (init_counts p) (n_allele p)
    (n_genotype p) (n_timestep p) (timestep_scale p) (passage p) (passage_time p)
    (dilution p) (max_cells p) (max_dose p) (stop_condition p) (debug p).

Definition with_death_model (m : option string) (p : PopParams) : PopParams :=
  mkPopParams (death_rate p) (mut_rate p) m (constant_pop p)
    (use_carrying_cap p) (carrying_cap p) (init_counts p) (n_allele p)
    (n_genotype p) (n_timestep p) (timestep_scale p) (passage p) (passage_time p)
    (dilution p) (max_cells p) (max_dose p) (stop_condition p) (debug p).

(** ** [Population.initialize_population] *)

Module Init.

(** [int(np.log2(n))]: [np.log2(0)] is [-inf], whose conversion raises. *)
Definition int_log2 (n : nat) : result nat :=
  if (n =? 0)%nat then Raise OverflowError else Ok (Nat.log2 n).

(** [np.zeros(n); init_counts[0] = 10**6]. *)
Definition default_init_counts (n : nat) : result (list Q) :=
  set_index (repeat 0%Q n) 0 (inject_Z (10 ^ 6)).

(** [init_counts*max_cells/sum(init_counts)], then [np.floor]. *)
Definition scale_to_max_cells (max_cells : Z) (c : list Q) : result (list Q) :=
  match c with
  | [] => Ok []
  | _ =>
      let s := Np.sumQ c in
      if Np.Qeqb s 0 then NonFinite
      else Ok (map (fun x => inject_Z (Qfloor (x * inject_Z max_cells / s))) c)
  end.

(** [pd_genotypes] is [len(self.pd_library['genotype'].unique())], read
    from the pharmacodynamic library file.  The attribute [self.counts],
    an array of zeros that [simulate] overwrites, is left out. *)
Definition initialize_population (p : PopParams) (pd_genotypes : nat)
  : result PopParams :=
  let ng := match n_genotype p with
            | None => pd_genotypes
            | Some n => n
            end in
  na <- match n_allele p with
        | None => int_log2 ng
        | Some a => Ok a
        end ;;
  l <- int_log2 ng ;;
  if negb (na =? l)%nat
  then Raise (Warning "Genotype/allele number mismatch")
  else
    ic <- match init_counts p with
          | None => default_init_counts ng
          | Some c => Ok c
          end ;;
    let p := with_init_counts (Some ic)
               (with_genotypes (Some na) (Some ng) p) in
    if constant_pop p then
      ic <- scale_to_max_cells (max_cells p) ic ;;
      Ok (mkPopParams (death_rate p) (mut_rate p) (death_model p)
            (constant_pop p) false (carrying_cap p) (Some ic)
            (n_allele p) (n_genotype p) (n_timestep p) (timestep_scale p)
            (passage p) (passage_time p) (dilution p) (max_cells p)
            (max_dose p) (stop_condition p) (debug p))
    else Ok p.

End Init.

(** ** [Population.passage_cells] *)

Module Passage.

(** [np.mod(x, y)] for [y] other than zero. *)
Definition np_mod (x y : Q) : Q := x - inject_Z (Qfloor (x / y)) * y.

(** [np.mod(x, y) == 0].  [np.mod] by zero is [nan] on floats and [0],
    with a warning, on integers: [None] stands for that case. *)
Definition mod_is_zero (x y : Q) : option bool :=
  if Np.Qeqb y 0 then None else Some (Np.Qeqb (np_mod x y) 0).

(** [int(c)] for [c] an entry of [np.divide(counts, dilution)]: the
    quotient by zero is [inf] or [nan], which [int] rejects. *)
Definition dilute (dilution : Z) (c : Z) : result Z :=
  if (dilution =? 0)%Z
  then (if (c =? 0)%Z then Raise ValueError else Raise OverflowError)
  else Ok (Np.Qtrunc (inject_Z c / inject_Z dilution)).

(** The statement [counts[counts<1] == 0] of the source is a comparison
    whose value is dropped; it has no effect.  With [passage_time = 0] the
    outcome of the test depends on the dtype as soon as the other two
    conjuncts hold; the model stops there. *)
Definition passage_cells (p : PopParams) (mm : nat) (counts : list Z)
  : result (list Z) :=
  match mod_is_zero (inject_Z (Z.of_nat mm) * timestep_scale p)
                    (inject_Z (passage_time p)) with
  | Some multiple =>
      if multiple && negb (mm =? 0)%nat && passage p
      then mapM (dilute (dilution p)) counts
      else Ok counts
  | None =>
      if negb (mm =? 0)%nat && passage p then NonFinite else Ok counts
  end.

End Passage.

(** ** The random source

    One record per call of [abm]: the value of every [np.random] call the
    step makes.  [poisson] and [choice] replay numpy's argument checks and
    accept a drawn value only inside the support of the distribution. *)

Module Rand.

Record Draws : Type := mkDraws {
  (** [np.random.poisson(counts_t*fit_land)], pharmacodynamic model *)
  delta_draw : list Z;
  (** [np.random.poisson(counts_t*death_rate)], pharmacodynamic model *)
  turnover_draw : list Z;
  (** [np.random.poisson(counts*death_rate)], default model *)
  death_draw : list Z;
  (** [np.random.poisson(counts_t*fit_land)], default model *)
  daughter_draw : list Z;
  (** [np.random.poisson(...)] of the mutation loop, per genotype *)
  n_mut_draw : nat -> Z;
  (** [np.random.choice(...)] of the mutation loop, per genotype *)
  mutations_draw : nat -> list nat
}.

(** A value [k] of a Poisson variable of mean [lam]: [k >= 0], and
    [k = 0] when [lam = 0]. *)
Definition poisson_support (lam : Q) (k : Z) : bool :=
  (0 <=? k)%Z && (negb (Np.Qeqb lam 0) || (k =? 0)%Z).

Fixpoint forallb2 {A B : Type} (f : A -> B -> bool) (a : list A) (b : list B) : bool :=
  match a, b with
  | [], [] => true
  | x :: a', y :: b' => f x y && forallb2 f a' b'
  | _, _ => false
  end.

(** [np.random.poisson(lam)] on an array: [ValueError] when an entry of
    [lam] is negative; the draw has the shape of [lam].  (numpy also
    rejects a mean above about 9.2e18; the model does not.) *)
Definition poisson (lam : list Q) (drawn : list Z) : result (list Z) :=
  if existsb (fun l => Np.Qltb l 0) lam then Raise ValueError
  else if forallb2 poisson_support lam drawn then Ok drawn
  else OffSupport.

Definition poisson1 (lam : Q) (drawn : Z) : result Z :=
  if Np.Qltb lam 0 then Raise ValueError
  else if poisson_support lam drawn then Ok drawn
  else OffSupport.

(** [np.random.choice(a, size=size, p=p)]: numpy checks that [p] has [a]
    entries, none negative, summing to one (here exactly, in numpy up to
    a tolerance); every index drawn has positive probability. *)
Definition choice (a : nat) (size : Z) (p : list Q) (drawn : list nat)
  : result (list nat) :=
  if (a =? 0)%nat && negb (size =? 0)%Z then Raise ValueError
  else if negb (length p =? a)%nat then Raise ValueError
  else if existsb (fun x => Np.Qltb x 0) p then Raise ValueError
  else if negb (Np.Qeqb (Np.sumQ p) 1) then Raise ValueError
  else if (Z.of_nat (length drawn) =? size)%Z
          && forallb (fun i => (i <? a)%nat && Np.Qltb 0 (nth i p 0%Q)) drawn
       then Ok drawn
       else OffSupport.

End Rand.

(** ** [Population.abm], [check_stop_cond] and [run_abm]

    The module [fears_md.utils.fitness] is not part of the sources at hand:
    its two entry points used by the engine are parameters of the model. *)

Module Abm.

Import Rand.

Section Engine.

(** [fitness.gen_abm_fl_md(self, mm, counts)]: growth rate per genotype
    at timestep [mm]. *)
Variable gen_abm_fl_md : PopParams -> nat -> list Z -> list Q.

(** [fitness.gen_fit_land(self, conc)]: fitness per genotype at a drug
    concentration. *)
Variable gen_fit_land : PopParams -> Q -> list Q.

Definition is_pharmacodynamic (p : PopParams) : bool :=
  match death_model p with
  | Some m => String.eqb m "pharmacodynamic"
  | None => false
  end.

Definition scaled (counts : list Z) (rate : Q) : list Q :=
  map (fun c => inject_Z c * rate) counts.

(** The branch on [self.death_model]: returns [counts_t] and
    [daughter_counts]. *)
Definition births_and_deaths (p : PopParams) (fit_land : list Q)
           (death_rate : Q) (counts : list Z) (dr : Draws)
  : result (list Z * list Z) :=
  let counts_t := counts in
  if is_pharmacodynamic p then
    let negative_fitness := map (fun f => Np.Qltb f 0) fit_land in
    let fit_land := map Qabs fit_land in
    lam <- Np.broadcast (fun c f => inject_Z c * f) counts_t fit_land ;;
    delta_cells <- poisson lam (delta_draw dr) ;;
    delta_cells <- Np.masked (fun d => (-1 * d)%Z) negative_fitness delta_cells ;;
    turnover <- poisson (scaled counts_t death_rate) (turnover_draw dr) ;;
    let dead_cells_turnover := map (fun d => (-1 * d)%Z) turnover in
    let dead_cells := map (fun d => if (0 <? d)%Z then 0%Z else d) delta_cells in
    dead_cells <- Np.broadcast Z.add dead_cells dead_cells_turnover ;;
    counts_t <- Np.broadcast Z.add counts_t dead_cells ;;
    let daughter_counts :=
      map (fun d => if (d <? 0)%Z then 0%Z else d) delta_cells in
    Ok (counts_t, daughter_counts)
  else
    deaths <- poisson (scaled counts death_rate) (death_draw dr) ;;
    counts_t <- Np.broadcast Z.sub counts_t deaths ;;
    lam <- Np.broadcast (fun c f => inject_Z c * f) counts_t fit_land ;;
    daughter_counts <- poisson lam (daughter_draw dr) ;;
    Ok (counts_t, daughter_counts).

(** One turn of the loop [for genotype in np.arange(n_genotype)]. *)
Definition mutate (p : PopParams) (mut_rate : Q) (n_genotype : nat)
           (P : list (list Q)) (dr : Draws)
           (st : list Z * list Z) (genotype : nat)
  : result (list Z * list Z) :=
  let '(counts_t, daughter_counts) := st in
  d <- index daughter_counts genotype ;;
  na <- match n_allele p with
        | Some a => Ok a
        | None => Raise TypeError
        end ;;
  n_mut <- poisson1 (inject_Z d * mut_rate * inject_Z (Z.of_nat na))
                    (n_mut_draw dr genotype) ;;
  daughter_counts <- set_index daughter_counts genotype (d - n_mut)%Z ;;
  col <- Np.column P genotype ;;
  mutations <- choice n_genotype n_mut col (mutations_draw dr genotype) ;;
  let mutations := map (fun m => m mod 256)%nat mutations in
  counts_t <- Np.inplace Z.add counts_t (Np.bincount mutations n_genotype) ;;
  Ok (counts_t, daughter_counts).

Fixpoint foldM {A B : Type} (f : A -> B -> result A) (l : list B) (a : A)
  : result A :=
  match l with
  | [] => Ok a
  | x :: l' => a' <- f a x ;; foldM f l' a'
  end.

(** [abm] from the branch on the death model down to
    [counts_t += daughter_counts], on the counts left by the passage. *)
Definition birth_death_mutation (p : PopParams) (mm n_genotype : nat)
           (P : list (list Q)) (fit_land : list Q) (death_rate mut_rate : Q)
           (counts : list Z) (dr : Draws)
  : result (list Z) :=
  '(counts_t, daughter_counts) <-
    births_and_deaths p fit_land death_rate counts dr ;;
  (* the debug printout names [dead_cells], which only the
     pharmacodynamic branch binds *)
  _ <- (if debug p && (mm mod 10 =? 0)%nat && negb (is_pharmacodynamic p)
        then Raise NameError else Ok tt) ;;
  let counts_t := map (fun c => if (c <? 0)%Z then 0%Z else c) counts_t in
  '(counts_t, daughter_counts) <-
    foldM (mutate p mut_rate n_genotype P dr) (seq 0 n_genotype)
          (counts_t, daughter_counts) ;;
  Np.inplace Z.add counts_t daughter_counts.

(** [abm] down to [counts_t += daughter_counts]: the growth rates are
    computed from the counts received, before the passage. *)
Definition abm_update (p : PopParams) (mm n_genotype : nat)
           (P : list (list Q)) (counts : list Z) (dr : Draws)
  : result (list Z) :=
  let fit_land := gen_abm_fl_md p mm counts in
  let fit_land := map (fun f => f * timestep_scale p) fit_land in
  let death_rate := death_rate p * timestep_scale p in
  let mut_rate := mut_rate p * timestep_scale p in
  counts <- Passage.passage_cells p mm counts ;;
  birth_death_mutation p mm n_genotype P fit_land death_rate mut_rate counts dr.

(** [scale = self.max_cells/np.sum(counts_t)], the product and
    [np.ceil(...).astype('int')]. *)
Definition constant_population (p : PopParams) (counts_t : list Z)
  : result (list Z) :=
  match counts_t with
  | [] => Ok []
  | _ =>
      let s := Np.sumZ counts_t in
      if (s =? 0)%Z then NonFinite
      else
        let scale := inject_Z (max_cells p) / inject_Z s in
        Ok (map (fun c => Qceiling (inject_Z c * scale)) counts_t)
  end.

Definition abm (p : PopParams) (mm n_genotype : nat)
           (P : list (list Q)) (counts : list Z) (dr : Draws)
  : result (list Z) :=
  counts_t <- abm_update p mm n_genotype P counts dr ;;
  if constant_pop p then constant_population p counts_t else Ok counts_t.

Definition stop_message : string :=
  "Stop condition not reached. Increase n_timestep or adjust model parameters.".

Definition check_stop_cond (p : PopParams) (counts : list Z) (mm : nat)
  : result bool :=
  let final_landscape := gen_fit_land p (max_dose p) in
  fittest_genotype <- Np.argmax Np.Qltb final_landscape ;;
  most_frequent_genotype <- Np.argmax Z.ltb counts ;;
  let stop_cond := (fittest_genotype =? most_frequent_genotype)%nat in
  if (n_timestep p <=? mm)%nat then Raise (Warning stop_message)
  else Ok stop_cond.

(** A [while] loop is a function with fuel; [None] is fuel running
    out, never a Python outcome. *)
Definition step_then {A B : Type} (c : result A) (k : A -> option (result B))
  : option (result B) :=
  match c with
  | Ok a => k a
  | Raise e => Some (Raise e)
  | OffSupport => Some OffSupport
  | NonFinite => Some NonFinite
  end.

(** [counts[i] = row] on a two-dimensional integer array. *)
Definition set_row (counts : list (list Z)) (i : nat) (row : list Z)
  : result (list (list Z)) :=
  old <- index counts i ;;
  new <- Np.inplace (fun _ x => x) old row ;;
  set_index counts i new.

(** [np.append(counts, [counts_t], axis=0)]. *)
Definition append_row (n_genotype : nat) (counts : list (list Z))
           (counts_t : list Z) : result (list (list Z)) :=
  if (length counts_t =? n_genotype)%nat then Ok (counts ++ [counts_t])
  else Raise ValueError.

(** [while not stop_condition: ...] of the stop-condition mode.  [counts]
    has two dimensions from the start, so the branch on
    [len(counts.shape) == 1] is never taken. *)
Fixpoint stop_loop (fuel : nat) (p : PopParams) (n_genotype : nat)
         (P : list (list Q)) (draws : nat -> Draws)
         (counts : list (list Z)) (mm : nat)
  : option (result (list (list Z) * nat)) :=
  match fuel with
  | O => None
  | S fuel' =>
      step_then
        (row <- index counts mm ;;
         counts_t <- abm p mm n_genotype P row (draws mm) ;;
         counts <- append_row n_genotype counts counts_t ;;
         let mm := S mm in
         stop <- check_stop_cond p counts_t mm ;;
         Ok (counts, mm, stop))
        (fun '(counts, mm, stop) =>
           if stop : bool then Some (Ok (counts, mm))
           else stop_loop fuel' p n_genotype P draws counts mm)
  end.

(** [while mm < self.n_timestep - 1: ...] of the default mode. *)
Fixpoint fixed_loop (fuel : nat) (p : PopParams) (n_genotype : nat)
         (P : list (list Q)) (draws : nat -> Draws)
         (counts : list (list Z)) (mm : nat)
  : option (result (list (list Z) * nat)) :=
  match fuel with
  | O => None
  | S fuel' =>
      if (mm <? n_timestep p - 1)%nat then
        step_then
          (row <- index counts mm ;;
           counts_t <- abm p mm n_genotype P row (draws mm) ;;
           set_row counts (S mm) counts_t)
          (fun counts => fixed_loop fuel' p n_genotype P draws counts (S mm))
      else Some (Ok (counts, mm))
  end.

(** [counts[0,:] = self.init_counts] on a fresh integer array. *)
Definition first_row (n_genotype : nat) (init : list Q) : result (list Z) :=
  Np.inplace (fun _ x => Np.Qtrunc x) (repeat 0%Z n_genotype) init.

Definition run_abm_with (fuel : nat) (p : PopParams) (draws : nat -> Draws)
  : option (result (list (list Z) * nat)) :=
  step_then
    (ng <- match n_genotype p with
           | Some n => Ok n
           | None => Raise TypeError
           end ;;
     P <- Mutation.random_mutations ng ng ;;
     Ok (ng, P))
    (fun '(ng, P) =>
       let mm := 0%nat in
       let init := match init_counts p with
                   | Some c => Ok c
                   | None => Raise TypeError
                   end in
       if stop_condition p then
         step_then (c <- init ;; first_row ng c)
           (fun row0 => stop_loop fuel p ng P draws [row0] mm)
       else
         match n_timestep p with
         | O => Some (Raise IndexError)
         | S k =>
             step_then (c <- init ;; first_row ng c)
               (fun row0 =>
                  fixed_loop fuel p ng P draws
                             (row0 :: repeat (repeat 0%Z ng) k) mm)
         end).

(** Both loops end within [n_timestep] turns (proved below). *)
Definition run_abm (p : PopParams) (draws : nat -> Draws)
  : option (result (list (list Z) * nat)) :=
  run_abm_with (S (n_timestep p)) p draws.

End Engine.

End Abm.

(** ** [Experiment.set_ramp_ud] *)

Module Ramp.

(** The attributes of [Experiment] that [set_ramp_ud] reads. *)
Record Experiment : Type := mkExperiment {
  first_dose : Q;
  second_dose : Q;
  third_dose : Q;
  ramp : Q;
  transition_times : list Q
}.

(** The defaults of [Experiment.__init__] for the experiment type
    ['ramp_up_down'], for a population of [n_timestep] steps. *)
Definition default_experiment (n_timestep : nat) : Experiment := {|
  first_dose := 1 # 100;
  second_dose := 100000;
  third_dose := 10;
  ramp := 100;
  transition_times :=
    [inject_Z (Z.of_nat n_timestep / 4);
     inject_Z (3 * Z.of_nat n_timestep / 4)]
|}.

(** [drug_curve[t-1]]: index [-1] is the last entry. *)
Definition previous (drug_curve : list Q) (t : nat) : result Q :=
  match t with
  | O => index drug_curve (length drug_curve - 1)
  | S t' => index drug_curve t'
  end.

(** The body of [for t in range(n_timestep)]. *)
Definition ramp_step (e : Experiment) (slope : Q) (times : list Q)
           (drug_curve : list Q) (t : nat) : result (list Q) :=
  let tq := inject_Z (Z.of_nat t) in
  let before (i : nat) := Np.Qltb tq (nth i times 0) in
  if before 0%nat then set_index drug_curve t (first_dose e)
  else if before 1%nat then
    prev <- previous drug_curve t ;;
    set_index drug_curve t (prev + slope)
  else if before 2%nat then set_index drug_curve t (second_dose e)
  else if before 3%nat then
    prev <- previous drug_curve t ;;
    if Np.Qltb (prev + slope) (third_dose e)
    then
      prev <- previous drug_curve t ;;
      set_index drug_curve t (prev + slope)
    else set_index drug_curve t (third_dose e)
  else set_index drug_curve t (third_dose e).

Fixpoint ramp_loop (e : Experiment) (slope : Q) (times : list Q)
         (ts : list nat) (drug_curve : list Q) : result (list Q) :=
  match ts with
  | [] => Ok drug_curve
  | t :: ts' =>
      drug_curve <- ramp_step e slope times drug_curve t ;;
      ramp_loop e slope times ts' drug_curve
  end.

(** [set_ramp_ud(p)], as a function of [p.n_timestep]; the curve
    returned is also stored in [p.drug_curve]. *)
Definition set_ramp_ud (e : Experiment) (n_timestep : nat) : result (list Q) :=
  let drug_curve := repeat 0 n_timestep in
  if Np.Qeqb (ramp e) 0 then Raise ZeroDivisionError
  else
    let slope := (second_dose e - first_dose e) / ramp e in
    let buffer := ramp e / 2 in
    t0 <- index (transition_times e) 0 ;;
    t1 <- index (transition_times e) 1 ;;
    let times := [t0 - buffer; t0 + buffer; t1 - buffer; t1 + buffer] in
    ramp_loop e slope times (seq 0 n_timestep) drug_curve.

End Ramp.

(** ** Definitions used to state the properties *)

Module Bits.

Local Open Scope char_scope.

(** The [A] low bits of [n], most significant first. *)
Fixpoint fixed_width (A n : nat) : list ascii :=
  match A with
  | O => []
  | S A' => fixed_width A' (Nat.div2 n) ++ [if Nat.odd n then "1" else "0"]
  end.

(** Number of bit positions below [A] at which [i] and [j] differ. *)
Definition dist (A i j : nat) : nat :=
  Mutation.count_diff (fixed_width A i) (fixed_width A j).

(** Number of [j < 2^A] at distance [d] from [i]. *)
Definition count_at (d A i : nat) : nat :=
  list_sum (map (fun j => if (dist A i j =? d)%nat then 1 else 0)%nat
                (seq 0 (2 ^ A))).

(** Adjacency weight, its row sum, and the matrix [random_mutations]
    returns on [2^A] genotypes. *)
Definition weight (A i j : nat) : Q := if (dist A i j =? 1)%nat then 1 else 0.

Definition weight_sum (A j : nat) : Q :=
  Np.sumQ (map (weight A j) (seq 0 (2 ^ A))).

Definition trans_form (A : nat) : list (list Q) :=
  map (fun i => map (fun j => weight A i j / weight_sum A j) (seq 0 (2 ^ A)))
      (seq 0 (2 ^ A)).

End Bits.

Module Trace.

Import Abm.

Section Steps.

Variable gen_abm_fl_md : PopParams -> nat -> list Z -> list Q.
Variables (p : PopParams) (n_genotype : nat) (P : list (list Q)).
Variable draws : nat -> Rand.Draws.

(** What [counts[mm+1] = v] stores in a row of [n_genotype] integers. *)
Definition stored (v : list Z) : result (list Z) :=
  Np.inplace (fun (_ : Z) x => x) (repeat 0%Z n_genotype) v.

(** [steps mm row k rows]: [k] successive calls of [abm], the first at
    timestep [mm] on [row], produce and store [rows] in this order. *)
Inductive steps : nat -> list Z -> nat -> list (list Z) -> Prop :=
| steps_done : forall mm row, steps mm row 0 []
| steps_next : forall mm row k v row' rows,
    abm gen_abm_fl_md p mm n_genotype P row (draws mm) = Ok v ->
    stored v = Ok row' ->
    steps (S mm) row' k rows ->
    steps mm row (S k) (row' :: rows).

End Steps.

End Trace.

(** ** Concrete configurations *)

Module Examples.

Definition unit_fitness (_ : PopParams) (_ : nat) (c : list Z) : list Q :=
  map (fun _ => 1%Q) c.

Definition zero_fitness (_ : PopParams) (_ : nat) (c : list Z) : list Q :=
  map (fun _ => 0%Q) c.

(** A landscape at the maximal dose whose fittest genotype is genotype 1. *)
Definition second_fittest (_ : PopParams) (_ : Q) : list Q := [0%Q; 1%Q].

(** Two genotypes, one allele, one cell of genotype 0, mutation rate 0.1. *)
Definition two_genotypes : PopParams :=
  with_mut_rate (1 # 10)
    (with_init_counts (Some [1%Q; 0%Q])
       (with_genotypes (Some 1%nat) (Some 2%nat) default_params)).

(** A landscape at the maximal dose whose fittest genotype is genotype 0. *)
Definition first_fittest (_ : PopParams) (_ : Q) : list Q := [1%Q; 0%Q].

(** No death, one daughter of genotype 0, three mutants drawn from
    her pool, all landing on genotype 1. *)
Definition excess_mutation : Rand.Draws := {|
  Rand.delta_draw := [];
  Rand.turnover_draw := [];
  Rand.death_draw := [0; 0]%Z;
  Rand.daughter_draw := [1; 0]%Z;
  Rand.n_mut_draw := fun g => match g with O => 3%Z | _ => 0%Z end;
  Rand.mutations_draw := fun g => match g with O => [1; 1; 1]%nat | _ => [] end
|}.

(** Every draw is zero. *)
Definition quiet (n : nat) : Rand.Draws := {|
  Rand.delta_draw := repeat 0%Z n;
  Rand.turnover_draw := repeat 0%Z n;
  Rand.death_draw := repeat 0%Z n;
  Rand.daughter_draw := repeat 0%Z n;
  Rand.n_mut_draw := fun _ => 0%Z;
  Rand.mutations_draw := fun _ => []
|}.




(** [two_genotypes] run to fixation with a horizon of three timesteps. *)
Definition short_horizon : PopParams := with_horizon 3 true two_genotypes.

(** [two_genotypes] on a fixed horizon of three timesteps. *)
Definition fixed_three : PopParams := with_horizon 3 false two_genotypes.

(** Two alleles declared for five genotypes. *)
Definition five_genotypes : PopParams :=
  with_genotypes (Some 2%nat) (Some 5%nat) default_params.

End Examples.

(** ** More of the genotype helpers of [Population] *)

Module Genotype.

(** [int(x)] on a decimal digit. *)
Definition int_of_digit (x : ascii) : Z := Z.of_nat (nat_of_ascii x) - 48.

(** [convertIntToGenotype(anInt, pad)]: [bin(2**pad + anInt)[3:]], digit
    by digit; the slice drops ['0b'] and the leading digit. *)
Definition convertIntToGenotype (anInt pad : nat) : list Z :=
  let offset := (2 ^ pad)%nat in
  map int_of_digit (tl (Mutation.bin (N.of_nat (offset + anInt)))).

(** The number a string of binary digits denotes ([int(s, 2)]), used to
    state what [int_to_binary] encodes. *)
Definition binary_value (s : list ascii) : nat :=
  fold_left (fun acc ch => (2 * acc + (if Ascii.eqb ch "1" then 1 else 0))%nat) s 0%nat.

End Genotype.

(** ** More concrete configurations *)

Module MoreExamples.


End MoreExamples.

(** ** [Population.simulate] *)

Module Simulate.

Import Abm.

Section Replicates.

Variable gen_abm_fl_md : PopParams -> nat -> list Z -> list Q.
Variable gen_fit_land : PopParams -> Q -> list Q.

(** [self.plot_timecourse(counts_t=counts)], of the plotting module; the
    figure it returns is dropped. *)
Variable plot_timecourse : list (list Z) -> result unit.

Definition add_row (avg : list Q) (counts : list Z) : result (list Q) :=
  Np.inplace (fun a c => a + inject_Z c) avg counts.

(** [avg_counts += counts] on two arrays of [n_genotype] columns: the
    rows of [counts] are as many as those of [avg_counts], or one row
    that is added to each. *)
Definition add_counts (avg_counts : list (list Q)) (counts : list (list Z))
  : result (list (list Q)) :=
  if (length avg_counts =? length counts)%nat
  then mapM (fun '(a, c) => add_row a c) (combine avg_counts counts)
  else match counts with
       | [row] => mapM (fun a => add_row a row) avg_counts
       | _ => Raise ValueError
       end.

(** [for i in range(self.n_sims)], the replicate [i] drawing [draws i]. *)
Fixpoint simulate_loop (p : PopParams) (plot : bool)
         (draws : nat -> nat -> Rand.Draws) (sims : list nat)
         (avg_counts : list (list Q)) (fixation_time : list nat)
  : option (result (list (list Q) * list nat)) :=
  match sims with
  | [] => Some (Ok (avg_counts, fixation_time))
  | i :: sims' =>
      match run_abm gen_abm_fl_md gen_fit_land p (draws i) with
      | None => None
      | Some run =>
          step_then
            ('(counts, mm) <- run ;;
             avg_counts <- add_counts avg_counts counts ;;
             let fixation_time := fixation_time ++ [mm] in
             _ <- (if plot then plot_timecourse counts else Ok tt) ;;
             Ok (avg_counts, fixation_time))
            (fun '(avg_counts, fixation_time) =>
               simulate_loop p plot draws sims' avg_counts fixation_time)
      end
  end.

(** [avg_counts/self.n_sims]: with [n_sims = 0] every entry is [0/0]. *)
Definition divide (avg_counts : list (list Q)) (n_sims : nat)
  : result (list (list Q)) :=
  if (n_sims =? 0)%nat then
    if forallb (fun row : list Q => match row with [] => true | _ => false end)
               avg_counts
    then Ok avg_counts
    else NonFinite
  else Ok (map (map (fun x => x / inject_Z (Z.of_nat n_sims))) avg_counts).

(** [simulate()], as a function of the attributes [n_sims] and [plot];
    the averages returned are also stored in [self.counts]. *)
Definition simulate (p : PopParams) (n_sims : nat) (plot : bool)
           (draws : nat -> nat -> Rand.Draws)
  : option (result (list (list Q) * list nat)) :=
  match n_genotype p with
  | None => Some (Raise TypeError)
  | Some ng =>
      let avg_counts := repeat (repeat 0 ng) (n_timestep p) in
      let fixation_time := [] in
      match simulate_loop p plot draws (seq 0 n_sims) avg_counts fixation_time with
      | None => None
      | Some run =>
          Some ('(avg_counts, fixation_time) <- run ;;
                avg_counts <- divide avg_counts n_sims ;;
                Ok (avg_counts, fixation_time))
      end
  end.

End Replicates.

End Simulate.

(** ** The entries of the ramp *)

Module RampEntry.

Import Ramp.

(** The value that the body of [for t in range(n_timestep)] stores in
    [drug_curve[t]], given [drug_curve[t-1]]. *)
Definition written (e : Experiment) (slope : Q) (times : list Q)
           (prev : Q) (t : nat) : Q :=
  let tq := inject_Z (Z.of_nat t) in
  let before (i : nat) := Np.Qltb tq (nth i times 0) in
  if before 0%nat then first_dose e
  else if before 1%nat then prev + slope
  else if before 2%nat then second_dose e
  else if before 3%nat then
    if Np.Qltb (prev + slope) (third_dose e) then prev + slope
    else third_dose e
  else third_dose e.

(** [times] of [set_ramp_ud], from the two transition times. *)
Definition windows (e : Experiment) (t0 t1 : Q) : list Q :=
  let buffer := ramp e / 2 in
  [t0 - buffer; t0 + buffer; t1 - buffer; t1 + buffer].

End RampEntry.

Module RampExamples.

(** Doses 1, 5 and 2, transitions at timesteps 2 and 6, ramps of two
    timesteps. *)
Definition small_ramp : Ramp.Experiment :=
  Ramp.mkExperiment 1 5 2 2 [2; 6].

(** The same with the first transition at timestep 0. *)
Definition early_ramp : Ramp.Experiment :=
  Ramp.mkExperiment 1 5 2 2 [0; 6].

End RampExamples.

(** ** Helper methods of [Experiment] *)

Module Survival.

Import Abm.



(** The [counts] handed to [extinction_time] and [resistance_time]: an
    array of one or of two dimensions. *)
Inductive counts_array : Type :=
| OneD (c : list Q)
| TwoD (rows : list (list Q)).

(** [event_time]: the integer [len(c)] or the first row [e[0]] of
    [np.argwhere], an array of one index, times [timestep_scale]. *)
Inductive event_time : Type :=
| Scalar (x : Q)
| Array (x : list Q).

(** [np.argwhere(test(c))]: the indices that pass, in increasing order. *)
Definition argwhere (test : Q -> bool) (c : list Q) : list nat :=
  filter (fun i => test (nth i c 0)) (seq 0 (length c)).

(** The common end of both methods: [event_obs] and [event_time]. *)
Definition event (p : PopParams) (c : list Q) (e : list nat) : Z * event_time :=
  match e with
  | [] => (0%Z, Scalar (inject_Z (Z.of_nat (length c)) * timestep_scale p))
  | k :: _ => (1%Z, Array [inject_Z (Z.of_nat k) * timestep_scale p])
  end.

(** [c] of [extinction_time]: [np.sum(counts, axis=1)] or [counts]. *)
Definition population_size (counts : counts_array) : list Q :=
  match counts with
  | TwoD rows => map Np.sumQ rows
  | OneD c => c
  end.

(** [extinction_time(pop, counts, thresh)]. *)
Definition extinction_time (p : PopParams) (counts : counts_array) (thresh : Q)
  : Z * event_time :=
  let c := population_size counts in
  event p c (argwhere (fun x => Np.Qltb x thresh) c).

(** [c] of [resistance_time]: [counts[:, genotype]] or [counts]; an array
    without rows is taken to have the column. *)
Definition genotype_counts (counts : counts_array) (genotype : nat)
  : result (list Q) :=
  match counts with
  | TwoD rows => Np.column rows genotype
  | OneD c => Ok c
  end.

(** [resistance_time(pop, counts, genotype, thresh)]. *)
Definition resistance_time (p : PopParams) (counts : counts_array)
           (genotype : nat) (thresh : Q) : result (Z * event_time) :=
  c <- genotype_counts counts genotype ;;
  let thresh := if Np.Qltb thresh 1 then thresh * inject_Z (max_cells p)
                else thresh in
  Ok (event p c (argwhere (fun x => Np.Qltb thresh x) c)).

End Survival.

Module SurvivalExamples.

(** Three timesteps of two genotypes: sizes 3, 0 and 1. *)
Definition dip : Survival.counts_array :=
  Survival.TwoD [[2; 1]; [0; 0]; [1; 0]].

End SurvivalExamples.

(** ** Keyword options: the loop that ends [PopParams.__init__] and
    opens [reset_drug_conc_curve] *)

Module Kwargs.

Section Dict.

(** The values of attributes, [None] among them. *)
Variable value : Type.
Variable none : value.

(** A [dict], in insertion order. *)
Definition dict : Type := list (string * value).

Definition keys (d : dict) : list string := map fst d.

(** [d.get(k)]. *)
Fixpoint get (d : dict) (k : string) : value :=
  match d with
  | [] => none
  | (k', v) :: d' => if String.eqb k' k then v else get d' k
  end.

(** [d.update({k: v})]: the entry of an existing key is replaced where
    it is, a new key is appended. *)
Fixpoint update (d : dict) (k : string) (v : value) : dict :=
  match d with
  | [] => [(k, v)]
  | (k', v') :: d' =>
      if String.eqb k' k then (k', v) :: d' else (k', v') :: update d' k v
  end.

(** [for paramkey in self.__dict__.keys(): for optkey in kwargs.keys():
    if paramkey == optkey: self.__dict__.update({paramkey:
    kwargs.get(paramkey)})].  No key is added while the keys are
    iterated. *)
Definition apply_kwargs (self_dict kwargs : dict) : dict :=
  fold_left
    (fun d paramkey =>
       fold_left
         (fun d optkey =>
            if String.eqb paramkey optkey
            then update d paramkey (get kwargs paramkey)
            else d)
         (keys kwargs) d)
    (keys self_dict) self_dict.

End Dict.

Arguments keys {value} d.
Arguments get {value} none d k.
Arguments update {value} d k v.
Arguments apply_kwargs {value} none self_dict kwargs.

End Kwargs.

(** * Properties of the engine *)

Import Mutation Bits.
Local Open Scope Q_scope.

(** ** Binary strings of fixed width *)

Section Strings.

Local Open Scope char_scope.

Lemma fixed_width_length A : forall n, length (fixed_width A n) = A.
Proof.
  induction A as [|A IH]; intro n; cbn; [reflexivity|].
  rewrite length_app, IH; cbn; lia.
Qed.

Lemma fixed_width_zero A : fixed_width A 0 = repeat "0" A.
Proof.
  induction A as [|A IH]; cbn; [reflexivity|].
  rewrite IH. symmetry. apply (repeat_cons A "0").
Qed.

Lemma zfill_snoc pad d c : zfill (S pad) (d ++ [c]) = zfill pad d ++ [c].
Proof.
  unfold zfill. rewrite length_app; cbn [length].
  replace (S pad - (length d + 1))%nat with (pad - length d)%nat by lia.
  now rewrite app_assoc.
Qed.

Lemma zfill_pos_digits p : forall A, (Pos.to_nat p < 2 ^ A)%nat ->
  zfill A (pos_digits p) = fixed_width A (Pos.to_nat p).
Proof.
  induction p as [q IH|q IH|]; intros [|A] Hlt;
    try (match type of Hlt with (Pos.to_nat ?x < _)%nat => pose proof (Pos2Nat.is_pos x) end;
         cbn [Nat.pow] in Hlt; lia); cbn [Nat.pow] in Hlt.
  - cbn [pos_digits fixed_width]. rewrite zfill_snoc, IH.
    + rewrite Pos2Nat.inj_xI. rewrite Nat.div2_succ_double.
      rewrite Nat.odd_succ, Nat.even_mul. reflexivity.
    + rewrite Pos2Nat.inj_xI in Hlt. lia.
  - cbn [pos_digits fixed_width]. rewrite zfill_snoc, IH.
    + rewrite Pos2Nat.inj_xO. rewrite Nat.div2_double.
      rewrite Nat.odd_mul. reflexivity.
    + rewrite Pos2Nat.inj_xO in Hlt. lia.
  - cbn [pos_digits fixed_width]. change ["1"] with ([] ++ ["1"]) at 1.
    rewrite zfill_snoc. change (Pos.to_nat 1) with 1%nat. cbn [Nat.div2 Nat.odd Nat.even negb].
    rewrite fixed_width_zero. unfold zfill. cbn [length]. rewrite Nat.sub_0_r, app_nil_r. reflexivity.
Qed.

Lemma int_to_binary_pow2 A num : (1 <= A)%nat -> (num < 2 ^ A)%nat ->
  int_to_binary (2 ^ A) num = fixed_width A num.
Proof.
  intros HA Hlt. unfold int_to_binary. rewrite Nat.log2_pow2 by lia.
  destruct num as [|n].
  - cbn [N.of_nat bin]. destruct A as [|A]; [lia|].
    change ["0"] with ([] ++ ["0"]). rewrite zfill_snoc.
    unfold zfill; cbn [length]. rewrite Nat.sub_0_r, app_nil_r.
    rewrite fixed_width_zero. symmetry. apply (repeat_cons A "0").
  - cbn [N.of_nat bin]. rewrite zfill_pos_digits; rewrite SuccNat2Pos.id_succ; auto.
Qed.

End Strings.

Lemma count_diff_snoc s : forall t a b, length s = length t ->
  count_diff (s ++ [a]) (t ++ [b])
  = (count_diff s t + (if Ascii.eqb a b then 0 else 1))%nat.
Proof.
  induction s as [|c s IH]; intros [|c' t] a b Hlen; cbn in *; try discriminate.
  - lia.
  - rewrite IH by lia. lia.
Qed.

Lemma count_diff_sym s : forall t, count_diff s t = count_diff t s.
Proof.
  induction s as [|c s IH]; intros [|c' t]; cbn; try reflexivity.
  now rewrite IH, Ascii.eqb_sym.
Qed.

Lemma dist_succ A i j :
  dist (S A) i j
  = (dist A (Nat.div2 i) (Nat.div2 j)
     + (if Bool.eqb (Nat.odd i) (Nat.odd j) then 0 else 1))%nat.
Proof.
  unfold dist; cbn [fixed_width].
  rewrite count_diff_snoc by now rewrite !fixed_width_length.
  f_equal. now destruct (Nat.odd i), (Nat.odd j).
Qed.

Lemma dist_sym A i j : dist A i j = dist A j i.
Proof. apply count_diff_sym. Qed.

(** ** Counting the genotypes at a given distance *)

Lemma list_sum_cons (x : nat) l : list_sum (x :: l) = (x + list_sum l)%nat.
Proof. reflexivity. Qed.

Lemma list_sum_seq_double (g : nat -> nat) m :
  list_sum (map g (seq 0 (2 * m)))
  = list_sum (map (fun k => g (2 * k) + g (2 * k + 1))%nat (seq 0 m)).
Proof.
  induction m as [|m IH]; [reflexivity|].
  replace (2 * S m)%nat with (S (S (2 * m))) by lia.
  rewrite !seq_S, !map_app, !list_sum_app, IH.
  cbn [map list_sum fold_right Nat.add].
  replace (2 * m + 1)%nat with (S (2 * m)) by lia. lia.
Qed.

Lemma list_sum_map_add {X} (f g : X -> nat) l :
  list_sum (map (fun x => f x + g x)%nat l)
  = (list_sum (map f l) + list_sum (map g l))%nat.
Proof.
  induction l as [|x l IH]; [reflexivity|].
  cbn [map]. rewrite !list_sum_cons, IH. lia.
Qed.

Lemma list_sum_map_ext {X} (f g : X -> nat) l :
  (forall x, In x l -> f x = g x) -> list_sum (map f l) = list_sum (map g l).
Proof.
  intro H. f_equal. apply map_ext_in. exact H.
Qed.

Lemma count_at_succ d A i :
  count_at d (S A) i
  = (count_at d A (Nat.div2 i)
     + list_sum (map (fun k => if (dist A (Nat.div2 i) k + 1 =? d)%nat then 1 else 0)%nat
                     (seq 0 (2 ^ A))))%nat.
Proof.
  unfold count_at. cbn [Nat.pow]. rewrite list_sum_seq_double.
  rewrite <- list_sum_map_add. apply list_sum_map_ext. intros k _.
  rewrite !dist_succ.
  replace (2 * k + 1)%nat with (S (2 * k)) by lia.
  rewrite Nat.div2_double, Nat.div2_succ_double.
  rewrite Nat.odd_succ, Nat.even_mul, Nat.odd_mul. cbn [Nat.odd Nat.even negb orb andb].
  destruct (Nat.odd i); cbn [Bool.eqb]; rewrite ?Nat.add_0_r; lia.
Qed.

Lemma count_at_zero A : forall i, count_at 0 A i = 1%nat.
Proof.
  induction A as [|A IH]; intro i; [reflexivity|].
  rewrite count_at_succ, IH.
  rewrite (list_sum_map_ext _ (fun _ => 0%nat)).
  - clear. induction (seq 0 (2 ^ A)); cbn; auto.
  - intros k _. destruct (Nat.eqb_spec (dist A (Nat.div2 i) k + 1) 0); lia.
Qed.

Lemma count_at_one A : forall i, count_at 1 A i = A.
Proof.
  induction A as [|A IH]; intro i; [reflexivity|].
  rewrite count_at_succ, IH.
  rewrite (list_sum_map_ext _ (fun k => if (dist A (Nat.div2 i) k =? 0)%nat then 1 else 0)%nat).
  - fold (count_at 0 A (Nat.div2 i)). rewrite count_at_zero. lia.
  - intros k _.
    destruct (Nat.eqb_spec (dist A (Nat.div2 i) k + 1) 1),
             (Nat.eqb_spec (dist A (Nat.div2 i) k) 0); lia.
Qed.


(** ** The mutation matrix in closed form *)

Lemma mapM_ok {X Y} (f : X -> result Y) (g : X -> Y) l :
  (forall x, In x l -> f x = Ok (g x)) -> mapM f l = Ok (map g l).
Proof.
  induction l as [|x l IH]; intro H; [reflexivity|].
  cbn [mapM map]. rewrite (H x (or_introl eq_refl)). cbn [bind].
  rewrite IH by (intros y Hy; apply H; now right). reflexivity.
Qed.

Lemma mapM_map {X Y W} (f : Y -> result W) (h : X -> Y) l :
  mapM f (map h l) = mapM (fun x => f (h x)) l.
Proof.
  induction l as [|x l IH]; [reflexivity|]. cbn [mapM map]. now rewrite IH.
Qed.

Lemma map2_map {X B C D} (f : B -> C -> D) (g : X -> B) (h : X -> C) l :
  Np.map2 f (map g l) (map h l) = map (fun x => f (g x) (h x)) l.
Proof.
  induction l as [|x l IH]; [reflexivity|]. cbn [Np.map2 map]. now rewrite IH.
Qed.

Lemma nth_map_seq {X} (f : nat -> X) n i d :
  (i < n)%nat -> nth i (map f (seq 0 n)) d = f i.
Proof.
  intro Hi. rewrite (nth_indep _ d (f 0%nat)) by now rewrite length_map, length_seq.
  rewrite map_nth, seq_nth by assumption. reflexivity.
Qed.

Lemma hamming_row_pow2 A i : (1 <= A)%nat -> (i < 2 ^ A)%nat ->
  hamming_row (2 ^ A) (2 ^ A) i
  = Ok (map (fun j => inject_Z (Z.of_nat (dist A i j))) (seq 0 (2 ^ A))).
Proof.
  intros HA Hi. unfold hamming_row. apply mapM_ok. intros j Hj.
  apply in_seq in Hj. rewrite !int_to_binary_pow2 by lia.
  unfold hammingDistance. rewrite !fixed_width_length, Nat.eqb_refl. reflexivity.
Qed.

Lemma hamming_matrix_pow2 A : (1 <= A)%nat ->
  hamming_matrix (2 ^ A) (2 ^ A)
  = Ok (map (fun i => map (fun j => inject_Z (Z.of_nat (dist A i j))) (seq 0 (2 ^ A)))
            (seq 0 (2 ^ A))).
Proof.
  intro HA. unfold hamming_matrix. apply mapM_ok. intros i Hi.
  apply in_seq in Hi. apply hamming_row_pow2; lia.
Qed.

Lemma zero_above_one_entry d :
  (if Np.Qltb 1 (inject_Z (Z.of_nat d)) then 0 else inject_Z (Z.of_nat d))
  = (if (d =? 1)%nat then 1 else 0).
Proof.
  destruct d as [|[|d]]; try reflexivity.
  unfold Np.Qltb, Qcompare. cbn [Qnum Qden inject_Z].
  rewrite !Z.mul_1_r.
  destruct (Z.compare_spec 1 (Z.of_nat (S (S d)))); try lia. reflexivity.
Qed.

Lemma zero_above_one_pow2 A :
  zero_above_one
    (map (fun i => map (fun j => inject_Z (Z.of_nat (dist A i j))) (seq 0 (2 ^ A)))
         (seq 0 (2 ^ A)))
  = map (fun i => map (weight A i) (seq 0 (2 ^ A))) (seq 0 (2 ^ A)).
Proof.
  unfold zero_above_one. rewrite map_map. apply map_ext. intro i.
  rewrite map_map. apply map_ext. intro j. apply zero_above_one_entry.
Qed.

Lemma row_sums_pow2 A :
  row_sums (map (fun i => map (weight A i) (seq 0 (2 ^ A))) (seq 0 (2 ^ A)))
  = map (weight_sum A) (seq 0 (2 ^ A)).
Proof. unfold row_sums. rewrite map_map. reflexivity. Qed.

Lemma sumQ_indicator (f : nat -> nat) l :
  Np.sumQ (map (fun k => inject_Z (Z.of_nat (f k))) l)
  == inject_Z (Z.of_nat (list_sum (map f l))).
Proof.
  induction l as [|x l IH]; [reflexivity|].
  cbn [map Np.sumQ fold_right]. fold (Np.sumQ (map (fun k => inject_Z (Z.of_nat (f k))) l)).
  rewrite IH, list_sum_cons, Nat2Z.inj_add, inject_Z_plus. reflexivity.
Qed.

Lemma weight_sum_eq A j : weight_sum A j == inject_Z (Z.of_nat A).
Proof.
  unfold weight_sum.
  rewrite (map_ext _ (fun k => inject_Z (Z.of_nat (if (dist A j k =? 1)%nat then 1 else 0)))).
  - rewrite sumQ_indicator. fold (count_at 1 A j). now rewrite count_at_one.
  - intro k. unfold weight. now destruct (dist A j k =? 1)%nat.
Qed.

Lemma weight_sums_nonzero A : (1 <= A)%nat ->
  existsb (fun s => Np.Qeqb s 0) (map (weight_sum A) (seq 0 (2 ^ A))) = false.
Proof.
  intro HA. destruct (existsb _ _) eqn:E; [|reflexivity]. exfalso.
  apply existsb_exists in E. destruct E as (s & Hin & Hs).
  apply in_map_iff in Hin. destruct Hin as (j & <- & _).
  unfold Np.Qeqb in Hs. destruct (Qcompare_spec (weight_sum A j) 0) as [E| |];
    try discriminate.
  rewrite weight_sum_eq in E. unfold Qeq in E. cbn in E. lia.
Qed.

Lemma random_mutations_pow2 A : (1 <= A)%nat ->
  random_mutations (2 ^ A) (2 ^ A) = Ok (trans_form A).
Proof.
  intro HA. unfold random_mutations. rewrite hamming_matrix_pow2 by assumption.
  cbn [bind]. rewrite zero_above_one_pow2, row_sums_pow2.
  rewrite weight_sums_nonzero by assumption. f_equal.
  unfold div_last_axis, trans_form. rewrite map_map. apply map_ext. intro i.
  apply map2_map.
Qed.

Lemma sumQ_div_const (w d : nat -> Q) (a : Q) l :
  (forall j, d j == a) ->
  Np.sumQ (map (fun j => w j / d j) l) == Np.sumQ (map w l) / a.
Proof.
  intro Hd. induction l as [|x l IH].
  - cbn. unfold Qdiv. ring.
  - cbn [map Np.sumQ fold_right].
    fold (Np.sumQ (map (fun j => w j / d j) l)). fold (Np.sumQ (map w l)).
    rewrite IH, Hd. unfold Qdiv. ring.
Qed.

Lemma trans_form_row_sum A i : (1 <= A)%nat ->
  Np.sumQ (map (fun j => weight A i j / weight_sum A j) (seq 0 (2 ^ A))) == 1.
Proof.
  intro HA. rewrite (sumQ_div_const _ _ (inject_Z (Z.of_nat A))) by apply weight_sum_eq.
  fold (weight_sum A i). rewrite weight_sum_eq.
  apply Qmult_inv_r. intro H.
  unfold Qeq in H. cbn [Qnum Qden inject_Z] in H. lia.
Qed.

Lemma trans_form_entry A i j : (i < 2 ^ A)%nat -> (j < 2 ^ A)%nat ->
  entry (trans_form A) i j = weight A i j / weight_sum A j.
Proof.
  intros Hi Hj. unfold entry, trans_form.
  rewrite (nth_map_seq _ _ _ [] Hi), (nth_map_seq _ _ _ 0 Hj). reflexivity.
Qed.

Lemma weight_sym A i j : weight A i j = weight A j i.
Proof. unfold weight. now rewrite dist_sym. Qed.

Lemma trans_form_length A : length (trans_form A) = (2 ^ A)%nat.
Proof. unfold trans_form. now rewrite length_map, length_seq. Qed.

Lemma trans_form_row A i : (i < 2 ^ A)%nat ->
  nth i (trans_form A) []
  = map (fun j => weight A i j / weight_sum A j) (seq 0 (2 ^ A)).
Proof. intro Hi. unfold trans_form. now rewrite (nth_map_seq _ _ _ [] Hi). Qed.


Lemma nth_error_map_seq {X} (f : nat -> X) n i :
  (i < n)%nat -> nth_error (map f (seq 0 n)) i = Some (f i).
Proof.
  intro Hi. rewrite nth_error_map, nth_error_seq.
  destruct (Nat.ltb_spec i n); [reflexivity | lia].
Qed.

Lemma trans_form_column A g : (g < 2 ^ A)%nat ->
  Np.column (trans_form A) g
  = Ok (map (fun i => weight A i g / weight_sum A g) (seq 0 (2 ^ A))).
Proof.
  intro Hg. unfold Np.column, trans_form. rewrite mapM_map.
  apply mapM_ok. intros i _. unfold index.
  now rewrite (nth_error_map_seq _ _ _ Hg).
Qed.


(** ** Neighbours by bit flip *)

Lemma div2_lxor a b : Nat.div2 (Nat.lxor a b) = Nat.lxor (Nat.div2 a) (Nat.div2 b).
Proof.
  apply Nat.bits_inj. intro n.
  rewrite Nat.lxor_spec, !Nat.div2_div, !Nat.div2_bits, Nat.lxor_spec.
  reflexivity.
Qed.

Lemma odd_lxor a b : Nat.odd (Nat.lxor a b) = xorb (Nat.odd a) (Nat.odd b).
Proof. now rewrite <- !Nat.bit0_odd, Nat.lxor_spec. Qed.

Lemma count_diff_refl s : count_diff s s = 0%nat.
Proof.
  induction s as [|c s IH]; [reflexivity|].
  cbn [count_diff]. now rewrite Ascii.eqb_refl, IH.
Qed.

Lemma dist_flip A : forall i m, (m < A)%nat -> dist A i (Nat.lxor i (2 ^ m)) = 1%nat.
Proof.
  induction A as [|A IH]; intros i m Hm; [lia|].
  rewrite dist_succ, div2_lxor, odd_lxor. destruct m as [|m].
  - change (2 ^ 0)%nat with 1%nat. cbn [Nat.div2 Nat.odd Nat.even negb].
    rewrite Nat.lxor_0_r. unfold dist at 1. rewrite count_diff_refl.
    now destruct (Nat.odd i).
  - rewrite Nat.pow_succ_r', Nat.div2_double, Nat.odd_mul.
    cbn [Nat.odd Nat.even negb andb]. rewrite IH by lia.
    now destruct (Nat.odd i).
Qed.

Lemma lxor_pow2_bound A i m : (i < 2 ^ A)%nat -> (m < A)%nat ->
  (Nat.lxor i (2 ^ m) < 2 ^ A)%nat.
Proof.
  intros Hi Hm.
  destruct (Nat.eq_dec (Nat.lxor i (2 ^ m)) 0) as [->|Hnz].
  - apply Nat.neq_0_lt_0, Nat.pow_nonzero. discriminate.
  - apply Nat.log2_lt_pow2; [lia|].
    eapply Nat.le_lt_trans; [apply Nat.log2_lxor|].
    apply Nat.max_lub_lt.
    + destruct (Nat.eq_dec i 0) as [->|Hi0]; [cbn; lia|].
      apply Nat.log2_lt_pow2; lia.
    + now rewrite Nat.log2_pow2 by lia.
Qed.

Lemma gen_neighbors_pow2 A i :
  gen_neighbors A i = map (fun m => Nat.lxor i (2 ^ m)) (seq 0 A).
Proof.
  unfold gen_neighbors. apply map_ext. intro m. now rewrite Nat.shiftl_1_l.
Qed.

Lemma NoDup_map_injective {X Y} (f : X -> Y) l :
  (forall a b, f a = f b -> a = b) -> NoDup l -> NoDup (map f l).
Proof.
  intros Hinj Hl. induction Hl as [|x l Hx Hl IH]; cbn [map]; constructor.
  - intro Hin. apply in_map_iff in Hin. destruct Hin as (y & Hy & Hin).
    apply Hinj in Hy. now subst y.
  - exact IH.
Qed.

Lemma gen_neighbors_NoDup A i : NoDup (gen_neighbors A i).
Proof.
  rewrite gen_neighbors_pow2. apply NoDup_map_injective; [|apply seq_NoDup].
  intros a b H.
  assert (E : (2 ^ a = 2 ^ b)%nat).
  { apply (f_equal (Nat.lxor i)) in H.
    now rewrite <- !Nat.lxor_assoc, Nat.lxor_nilpotent, !Nat.lxor_0_l in H. }
  apply Nat.pow_inj_r in E; [exact E | lia].
Qed.

Lemma count_at_filter d A i :
  count_at d A i
  = length (filter (fun j => (dist A i j =? d)%nat) (seq 0 (2 ^ A))).
Proof.
  unfold count_at. induction (seq 0 (2 ^ A)) as [|j l IH]; [reflexivity|].
  cbn [map filter]. rewrite list_sum_cons, IH.
  now destruct (dist A i j =? d)%nat.
Qed.

(** On [2^A] genotypes, the genotypes at distance one from [i] are the
    [A] genotypes that [gen_neighbors] lists. *)
Lemma neighbours_at_distance_one A i j : (i < 2 ^ A)%nat -> (j < 2 ^ A)%nat ->
  dist A i j = 1%nat -> In j (gen_neighbors A i).
Proof.
  intros Hi Hj Hd.
  set (near := filter (fun j => (dist A i j =? 1)%nat) (seq 0 (2 ^ A))).
  assert (Hincl : incl (gen_neighbors A i) near).
  { intros x Hx. rewrite gen_neighbors_pow2 in Hx.
    apply in_map_iff in Hx. destruct Hx as (m & <- & Hm). apply in_seq in Hm.
    apply filter_In. split.
    - apply in_seq. split; [lia|]. cbn. apply lxor_pow2_bound; [assumption | lia].
    - apply Nat.eqb_eq. apply dist_flip. lia. }
  apply (NoDup_length_incl (gen_neighbors_NoDup A i)) in Hincl.
  - apply Hincl. apply filter_In. split; [apply in_seq; lia | now apply Nat.eqb_eq].
  - unfold near. rewrite <- count_at_filter, count_at_one.
    unfold gen_neighbors. now rewrite length_map, length_seq.
Qed.

(** C2. For [N = 2^A] genotypes with [A >= 1], [random_mutations] returns
    an [N] by [N] matrix in which every row sums to one, and every
    non-zero entry off the diagonal lies between two genotypes whose
    binary strings differ at exactly one position: the second is one of
    the [gen_neighbors] of the first. *)
Theorem random_mutations_rows_and_edges :
  forall A N : nat, (1 <= A)%nat -> N = (2 ^ A)%nat ->
  exists P, random_mutations N N = Ok P /\
    length P = N /\
    (forall i, (i < N)%nat ->
       length (nth i P []) = N /\ Np.sumQ (nth i P []) == 1) /\
    (forall i j, (i < N)%nat -> (j < N)%nat -> i <> j ->
       ~ entry P i j == 0 ->
       hammingDistance (int_to_binary N i) (int_to_binary N j) = Ok 1%nat /\
       In j (gen_neighbors A i)).
Proof.
  intros A N HA ->. exists (trans_form A).
  split; [now apply random_mutations_pow2|].
  split; [apply trans_form_length|]. split.
  - intros i Hi. rewrite trans_form_row by assumption. split.
    + now rewrite length_map, length_seq.
    + now apply trans_form_row_sum.
  - intros i j Hi Hj _ Hnz. rewrite trans_form_entry in Hnz by assumption.
    rewrite !int_to_binary_pow2 by assumption.
    unfold hammingDistance. rewrite !fixed_width_length, Nat.eqb_refl.
    fold (dist A i j). unfold weight in Hnz.
    destruct (Nat.eqb_spec (dist A i j) 1) as [E|Hne].
    + rewrite E. split; [reflexivity|]. now apply neighbours_at_distance_one.
    + exfalso. apply Hnz. unfold Qdiv. ring.
Qed.

Lemma random_mutations_rows_and_edges_witness :
  exists P, random_mutations 4 4 = Ok P /\
    length P = 4%nat /\
    (forall i, (i < 4)%nat ->
       length (nth i P []) = 4%nat /\ Np.sumQ (nth i P []) == 1) /\
    (forall i j, (i < 4)%nat -> (j < 4)%nat -> i <> j ->
       ~ entry P i j == 0 ->
       hammingDistance (int_to_binary 4 i) (int_to_binary 4 j) = Ok 1%nat /\
       In j (gen_neighbors 2 i)).
Proof.
  apply (random_mutations_rows_and_edges 2 4); [lia | reflexivity].
Defined.




(** ** Rational arithmetic of the arrays *)

Lemma Qeqb_true x y : Np.Qeqb x y = true <-> x == y.
Proof.
  unfold Np.Qeqb. rewrite Qeq_alt. destruct (x ?= y); split; congruence.
Qed.

Lemma Qeqb_false x y : Np.Qeqb x y = false <-> ~ x == y.
Proof.
  rewrite <- Qeqb_true. destruct (Np.Qeqb x y); split; congruence.
Qed.



Lemma sumQ_cons x l : Np.sumQ (x :: l) = x + Np.sumQ l.
Proof. reflexivity. Qed.




(** ** Passaging *)

Import Passage.



Lemma passage_cells_disabled p mm counts :
  passage p = false -> passage_cells p mm counts = Ok counts.
Proof.
  intro H. unfold passage_cells. rewrite H.
  destruct (mod_is_zero _ _); now rewrite andb_false_r.
Qed.



(** ** Initialization *)

Import Init.

Lemma int_log2_pow2 a : int_log2 (2 ^ a) = Ok a.
Proof.
  unfold int_log2. destruct (Nat.eqb_spec (2 ^ a) 0) as [E|_].
  - exfalso. revert E. apply Nat.pow_nonzero. discriminate.
  - now rewrite Nat.log2_pow2 by lia.
Qed.

(** The half of the consistency test that holds: declaring [a] alleles
    for [2^a] genotypes passes the test. *)
Lemma initialize_population_power_of_two p pd a c :
  n_genotype p = Some (2 ^ a)%nat -> n_allele p = Some a ->
  init_counts p = Some c -> constant_pop p = false ->
  initialize_population p pd
  = Ok (with_init_counts (Some c) (with_genotypes (Some a) (Some (2 ^ a)%nat) p)).
Proof.
  intros Hg Ha Hc Hk. unfold initialize_population.
  rewrite Hg, Ha, Hc. cbn [bind]. rewrite int_log2_pow2. cbn [bind].
  rewrite Nat.eqb_refl. cbn [negb bind]. cbn. now rewrite Hk.
Qed.

Lemma scale_to_max_cells_no_raise m c e : scale_to_max_cells m c <> Raise e.
Proof.
  unfold scale_to_max_cells. destruct c; [discriminate|].
  destruct (Np.Qeqb _ 0); discriminate.
Qed.

Lemma default_init_counts_ok g : (0 < g)%nat ->
  default_init_counts g = Ok (inject_Z (10 ^ 6) :: repeat 0 (g - 1)).
Proof.
  intro Hg. destruct g; [lia|]. unfold default_init_counts. cbn [repeat set_index].
  now replace (S g - 1)%nat with g by lia.
Qed.

(** The test compares with the integer part of the logarithm: it lets
    through every genotype count between [2^a] and [2^(a+1) - 1]. *)
Lemma initialize_population_test p pd a g :
  n_genotype p = Some g -> n_allele p = Some a -> (0 < g)%nat ->
  (initialize_population p pd = Raise (Warning "Genotype/allele number mismatch")
   <-> a <> Nat.log2 g).
Proof.
  intros Hg Ha Hpos. unfold initialize_population. rewrite Hg, Ha.
  unfold int_log2. destruct (Nat.eqb_spec g 0) as [E|_]; [lia|]. cbn [bind].
  destruct (Nat.eqb_spec a (Nat.log2 g)) as [E|E]; cbn [negb].
  - split; [|congruence]. intro H. exfalso.
    assert (Hsc : forall c q',
               (if constant_pop q' then
                  ic <- scale_to_max_cells (max_cells q') c ;;
                  Ok (mkPopParams (death_rate q') (mut_rate q') (death_model q')
                        (constant_pop q') false (carrying_cap q') (Some ic)
                        (n_allele q') (n_genotype q') (n_timestep q')
                        (timestep_scale q') (passage q') (passage_time q')
                        (dilution q') (max_cells q') (max_dose q')
                        (stop_condition q') (debug q'))
                else Ok q')%py
               <> Raise (Warning "Genotype/allele number mismatch")).
    { intros c q'. destruct (constant_pop q'); [|discriminate].
      pose proof (scale_to_max_cells_no_raise (max_cells q') c) as Hn.
      destruct (scale_to_max_cells (max_cells q') c) as [ic|e| |];
        cbn [bind]; try discriminate.
      exfalso. exact (Hn e eq_refl). }
    rewrite (default_init_counts_ok g Hpos) in H.
    destruct (init_counts p) as [c|]; cbn [bind] in H; eapply Hsc; exact H.
  - split; [intros _; exact E | reflexivity].
Qed.

(** C6. Two alleles declared for five genotypes: [5 <> 2^2], yet
    [initialize_population] returns normally, whatever the library holds;
    the mutation matrix of that population then fails the assertion of
    [hammingDistance]. *)
Theorem initialize_population_accepts_five_genotypes :
  (5 <> 2 ^ 2)%nat /\
  (forall pd, exists q,
      initialize_population Examples.five_genotypes pd = Ok q /\
      n_allele q = Some 2%nat /\ n_genotype q = Some 5%nat) /\
  Mutation.random_mutations 5 5 = Raise AssertionError.
Proof.
  split; [discriminate|]. split.
  - intro pd. eexists. split; [vm_compute; reflexivity|]. split; reflexivity.
  - vm_compute. reflexivity.
Qed.






(** ** The update step *)

Import Abm.









(** C1. One cell of genotype 0 on two genotypes, default death model,
    mutation rate 0.1: no death, one daughter, three mutants drawn for
    her pool (every draw inside the support of its distribution).  The
    step returns -1 for genotype 0; so it does at the default mutation
    rate of 1e-9. *)
Theorem abm_returns_negative_count :
  Mutation.random_mutations 2 2 = Ok (trans_form 1) /\
  Forall (fun c => 0 <= c)%Z [1; 0]%Z /\
  abm Examples.unit_fitness Examples.two_genotypes 0 2 (trans_form 1)
      [1; 0]%Z Examples.excess_mutation
  = Ok [-1; 3]%Z /\
  abm Examples.unit_fitness
      (with_mut_rate (mut_rate default_params) Examples.two_genotypes)
      0 2 (trans_form 1) [1; 0]%Z Examples.excess_mutation
  = Ok [-1; 3]%Z.
Proof.
  split; [vm_compute; reflexivity|]. split; [|split].
  - repeat constructor; lia.
  - vm_compute. reflexivity.
  - vm_compute. reflexivity.
Qed.

(** ** The driver *)

Import Trace.

Lemma index_middle {X} (done : list X) r rest :
  index (done ++ r :: rest) (length done) = Ok r.
Proof.
  unfold index. rewrite nth_error_app2 by lia.
  now rewrite Nat.sub_diag.
Qed.

Lemma set_index_middle {X} (done : list X) r rest x :
  set_index (done ++ r :: rest) (length done) x = Ok (done ++ x :: rest).
Proof.
  induction done as [|y done IH]; [reflexivity|].
  cbn [app length set_index]. now rewrite IH.
Qed.

Section Driver.

Variable gen_abm_fl_md : PopParams -> nat -> list Z -> list Q.
Variable gen_fit_land : PopParams -> Q -> list Q.
Variables (p : PopParams) (ng : nat) (P : list (list Q)).
Variable draws : nat -> Rand.Draws.

Let zeros := repeat 0%Z ng.

Lemma set_row_next done r rest v :
  set_row (done ++ r :: zeros :: rest) (S (length done)) v
  = (new <- stored ng v ;; Ok (done ++ r :: new :: rest))%py.
Proof.
  unfold set_row, stored. fold zeros.
  replace (done ++ r :: zeros :: rest) with ((done ++ [r]) ++ zeros :: rest)
    by now rewrite <- app_assoc.
  replace (S (length done)) with (length (done ++ [r]))
    by (rewrite length_app; cbn; lia).
  rewrite index_middle. cbn [bind].
  destruct (Np.inplace _ zeros v) as [new| | |]; cbn [bind]; try reflexivity.
  rewrite set_index_middle. now rewrite <- !app_assoc.
Qed.

Lemma steps_length mm r k rows :
  steps gen_abm_fl_md p ng P draws mm r k rows -> length rows = k.
Proof. induction 1; cbn; congruence. Qed.

(** The loop of the default mode, started at timestep [mm] with the rows
    [done] behind it, [r] under it and [k] rows of zeros ahead. *)
Lemma fixed_loop_spec k : forall fuel done r mm,
  length done = mm -> (mm + k = n_timestep p - 1)%nat -> (k < fuel)%nat ->
  (exists out, fixed_loop gen_abm_fl_md fuel p ng P draws
                          (done ++ r :: repeat zeros k) mm = Some out) /\
  (forall traj mm',
      fixed_loop gen_abm_fl_md fuel p ng P draws
                 (done ++ r :: repeat zeros k) mm = Some (Ok (traj, mm'))
      <-> (mm' = (mm + k)%nat /\
           exists rows, traj = done ++ r :: rows /\
                        steps gen_abm_fl_md p ng P draws mm r k rows)).
Proof.
  induction k as [|k IH]; intros fuel done r mm Hlen Hk Hfuel; subst mm;
    (destruct fuel as [|fuel]; [lia|]); cbn [fixed_loop repeat].
  - destruct (Nat.ltb_spec (length done) (n_timestep p - 1)) as [Hlt|_]; [lia|].
    split; [eexists; reflexivity|]. intros traj mm'. split.
    + intro H. injection H as <- <-. split; [lia|].
      exists []. split; [reflexivity | constructor].
    + intros [-> (rows & -> & Hsteps)]. inversion Hsteps; subst.
      now rewrite Nat.add_0_r.
  - destruct (Nat.ltb_spec (length done) (n_timestep p - 1)) as [_|Hge]; [|lia].
    rewrite index_middle. cbn [bind].
    destruct (abm gen_abm_fl_md p (length done) ng P r (draws (length done)))
      as [v|e| |] eqn:Eabm; cbn [bind step_then];
      try (split; [eexists; reflexivity|]; intros traj mm'; split;
           [discriminate|];
           intros [_ (rows & _ & Hsteps)]; inversion Hsteps; subst; congruence).
    rewrite set_row_next.
    destruct (stored ng v) as [new|e| |] eqn:Est; cbn [bind step_then];
      try (split; [eexists; reflexivity|]; intros traj mm'; split;
           [discriminate|];
           intros [_ (rows & _ & Hsteps)]; inversion Hsteps; subst; congruence).
    replace (done ++ r :: new :: repeat zeros k)
      with ((done ++ [r]) ++ new :: repeat zeros k) by now rewrite <- app_assoc.
    destruct (IH fuel (done ++ [r]) new (S (length done))) as [Hout Hiff];
      [rewrite length_app; cbn; lia | lia | lia |].
    split; [exact Hout|]. intros traj mm'. rewrite Hiff. split.
    + intros [-> (rows & -> & Hsteps)]. split; [lia|].
      exists (new :: rows). split; [now rewrite <- app_assoc|].
      econstructor; eassumption.
    + intros [-> (rows & -> & Hsteps)]. split; [lia|].
      inversion Hsteps; subst.
      match goal with
      | H1 : abm _ _ _ _ _ _ _ = Ok ?v', H2 : stored _ ?v' = Ok ?row' |- _ =>
          rewrite Eabm in H1; injection H1 as <-;
          rewrite Est in H2; injection H2 as <-
      end.
      eexists. split; [now rewrite <- app_assoc | eassumption].
Qed.

Lemma check_stop_cond_ok counts mm b :
  check_stop_cond gen_fit_land p counts mm = Ok b ->
  (mm < n_timestep p)%nat /\
  exists f m, Np.argmax Np.Qltb (gen_fit_land p (max_dose p)) = Ok f /\
              Np.argmax Z.ltb counts = Ok m /\ b = (f =? m)%nat.
Proof.
  unfold check_stop_cond.
  destruct (Np.argmax Np.Qltb _) as [f| | |]; cbn [bind]; try discriminate.
  destruct (Np.argmax Z.ltb counts) as [m| | |]; cbn [bind]; try discriminate.
  destruct (Nat.leb_spec (n_timestep p) mm) as [|Hlt]; [discriminate|].
  intro Hb. injection Hb as <-. split; [lia|]. now exists f, m.
Qed.

Lemma check_stop_cond_horizon counts mm f m :
  (n_timestep p <= mm)%nat ->
  Np.argmax Np.Qltb (gen_fit_land p (max_dose p)) = Ok f ->
  Np.argmax Z.ltb counts = Ok m ->
  check_stop_cond gen_fit_land p counts mm = Raise (Warning stop_message).
Proof.
  intros Hmm Hf Hm. unfold check_stop_cond. rewrite Hf, Hm. cbn [bind].
  destruct (Nat.leb_spec (n_timestep p) mm); [reflexivity | lia].
Qed.

(** The loop of the stop-condition mode never runs out of fuel, and
    returns only at a timestep below the horizon at which the fittest
    genotype is the most frequent one of the last row. *)
Lemma stop_loop_spec k : forall fuel counts mm,
  (n_timestep p - mm <= k)%nat -> (k < fuel)%nat ->
  (exists out, stop_loop gen_abm_fl_md gen_fit_land fuel p ng P draws counts mm
               = Some out) /\
  (forall traj mm',
      stop_loop gen_abm_fl_md gen_fit_land fuel p ng P draws counts mm
      = Some (Ok (traj, mm')) ->
      (mm < mm' < n_timestep p)%nat /\
      exists f, Np.argmax Np.Qltb (gen_fit_land p (max_dose p)) = Ok f /\
                Np.argmax Z.ltb (last traj []) = Ok f).
Proof.
  induction k as [|k IH]; intros fuel counts mm Hk Hfuel;
    (destruct fuel as [|fuel]; [lia|]); cbn [stop_loop].
  all: destruct (index counts mm) as [row|e| |]; cbn [bind step_then];
    try (split; [eexists; reflexivity | discriminate]).
  all: destruct (abm gen_abm_fl_md p mm ng P row (draws mm)) as [v|e| |];
    cbn [bind step_then]; try (split; [eexists; reflexivity | discriminate]).
  all: destruct (append_row ng counts v) as [counts'|e| |] eqn:Eapp;
    cbn [bind step_then]; try (split; [eexists; reflexivity | discriminate]).
  all: destruct (check_stop_cond gen_fit_land p v (S mm)) as [[|]|e| |] eqn:Echk;
    cbn [bind step_then]; try (split; [eexists; reflexivity | discriminate]).
  all: destruct (check_stop_cond_ok _ _ _ Echk) as (Hlt & f & m & Hf & Hm & Hb).
  all: try lia.
  - split; [eexists; reflexivity|]. intros traj mm' H. injection H as <- <-.
    split; [lia|]. exists f. split; [exact Hf|].
    unfold append_row in Eapp. destruct (length v =? ng)%nat; [|discriminate].
    injection Eapp as <-. rewrite last_last.
    symmetry in Hb. apply Nat.eqb_eq in Hb. now subst m.
  - destruct (IH fuel counts' (S mm)) as [Hout Hret]; [lia | lia |].
    split; [exact Hout|]. intros traj mm' H.
    destruct (Hret traj mm' H) as [Hrange Hfix]. split; [lia | exact Hfix].
Qed.

End Driver.

(** C7. In the default mode ([stop_condition] false) with a horizon of
    at least one timestep, [run_abm] returns exactly when [n_timestep - 1]
    successive calls of [abm] return; it then hands back those
    [n_timestep - 1] rows, in order, after the row of the initial counts,
    together with the timestep [n_timestep - 1]. *)
Theorem run_abm_fixed_horizon :
  forall gen_abm_fl_md gen_fit_land (p : PopParams) (draws : nat -> Rand.Draws)
         (ng : nat) (P : list (list Q)) (c : list Q) (row0 : list Z),
    stop_condition p = false ->
    n_genotype p = Some ng ->
    Mutation.random_mutations ng ng = Ok P ->
    init_counts p = Some c ->
    first_row ng c = Ok row0 ->
    (1 <= n_timestep p)%nat ->
    (exists out, run_abm gen_abm_fl_md gen_fit_land p draws = Some out) /\
    (forall traj mm,
        run_abm gen_abm_fl_md gen_fit_land p draws = Some (Ok (traj, mm))
        <-> (mm = (n_timestep p - 1)%nat /\
             exists rows,
               traj = row0 :: rows /\
               length rows = (n_timestep p - 1)%nat /\
               steps gen_abm_fl_md p ng P draws 0 row0 (n_timestep p - 1) rows)).
Proof.
  intros gen fit p draws ng P c row0 Hstop Hng HP Hc Hrow Hn.
  unfold run_abm, run_abm_with. rewrite Hng. cbn [bind]. rewrite HP.
  cbn [bind step_then]. rewrite Hc, Hstop.
  destruct (n_timestep p) as [|k] eqn:En; [lia|].
  cbn [bind]. rewrite Hrow. cbn [bind step_then].
  destruct (fixed_loop_spec gen p ng P draws k (S (S k)) [] row0 0)
    as [Hout Hiff]; [reflexivity | rewrite En; lia | lia |].
  cbn [app] in Hout, Hiff.
  split; [exact Hout|]. intros traj mm. rewrite Hiff.
  replace (S k - 1)%nat with k by lia. cbn [Nat.add]. split.
  - intros [-> (rows & -> & Hsteps)]. split; [reflexivity|].
    exists rows. split; [reflexivity|]. split; [|exact Hsteps].
    eapply steps_length; eassumption.
  - intros [-> (rows & -> & _ & Hsteps)]. split; [reflexivity|].
    exists rows. split; [reflexivity | exact Hsteps].
Qed.

Lemma run_abm_fixed_horizon_witness :
  run_abm Examples.zero_fitness Examples.first_fittest Examples.fixed_three
          (fun _ => Examples.quiet 2)
  = Some (Ok ([[1; 0]; [1; 0]; [1; 0]]%Z, 2%nat)) /\
  exists rows,
    [[1; 0]; [1; 0]; [1; 0]]%Z = [1; 0]%Z :: rows /\
    length rows = 2%nat /\
    steps Examples.zero_fitness Examples.fixed_three 2 (trans_form 1)
          (fun _ => Examples.quiet 2) 0 [1; 0]%Z 2 rows.
Proof.
  destruct (run_abm_fixed_horizon Examples.zero_fitness Examples.first_fittest
              Examples.fixed_three (fun _ => Examples.quiet 2) 2 (trans_form 1)
              [1; 0] [1; 0]%Z)
    as [_ Hiff].
  - reflexivity.
  - reflexivity.
  - vm_compute. reflexivity.
  - reflexivity.
  - vm_compute. reflexivity.
  - cbn. lia.
  - assert (Hrun : run_abm Examples.zero_fitness Examples.first_fittest
                           Examples.fixed_three (fun _ => Examples.quiet 2)
                   = Some (Ok ([[1; 0]; [1; 0]; [1; 0]]%Z, 2%nat)))
      by (vm_compute; reflexivity).
    split; [exact Hrun|].
    destruct (proj1 (Hiff _ _) Hrun) as [_ Hrows]. exact Hrows.
Defined.

(** C5 fails as stated: with a horizon of three timesteps, genotype 1
    the fittest at the maximal dose and a population that stays on
    genotype 0, [run_abm] ends with the exception raised by
    [check_stop_cond]; no trajectory is returned. *)
Lemma run_abm_horizon_raises :
  stop_condition Examples.short_horizon = true /\
  run_abm Examples.zero_fitness Examples.second_fittest Examples.short_horizon
          (fun _ => Examples.quiet 2)
  = Some (Raise (Warning stop_message)).
Proof. split; [reflexivity | vm_compute; reflexivity]. Qed.

(** C5, amended. In the stop-condition mode [run_abm] always ends; it
    returns a trajectory only when the fittest genotype at the maximal
    dose is the most frequent genotype of the last row at a timestep
    below [n_timestep]; and once the timestep counter has reached
    [n_timestep], [check_stop_cond] raises [Warning], which [run_abm]
    does not catch. *)
Theorem run_abm_stop_condition :
  forall gen_abm_fl_md gen_fit_land (p : PopParams) (draws : nat -> Rand.Draws),
    stop_condition p = true ->
    (exists out, run_abm gen_abm_fl_md gen_fit_land p draws = Some out) /\
    (forall traj mm,
        run_abm gen_abm_fl_md gen_fit_land p draws = Some (Ok (traj, mm)) ->
        (0 < mm < n_timestep p)%nat /\
        exists f, Np.argmax Np.Qltb (gen_fit_land p (max_dose p)) = Ok f /\
                  Np.argmax Z.ltb (last traj []) = Ok f) /\
    (forall counts mm f m,
        (n_timestep p <= mm)%nat ->
        Np.argmax Np.Qltb (gen_fit_land p (max_dose p)) = Ok f ->
        Np.argmax Z.ltb counts = Ok m ->
        check_stop_cond gen_fit_land p counts mm = Raise (Warning stop_message)).
Proof.
  intros gen fit p draws Hstop.
  assert (Hloop : forall ng P counts,
             (exists out, stop_loop gen fit (S (n_timestep p)) p ng P draws counts 0
                          = Some out) /\
             (forall traj mm,
                 stop_loop gen fit (S (n_timestep p)) p ng P draws counts 0
                 = Some (Ok (traj, mm)) ->
                 (0 < mm < n_timestep p)%nat /\
                 exists f, Np.argmax Np.Qltb (fit p (max_dose p)) = Ok f /\
                           Np.argmax Z.ltb (last traj []) = Ok f)).
  { intros ng P counts.
    apply (stop_loop_spec gen fit p ng P draws (n_timestep p)); lia. }
  split; [|split].
  - unfold run_abm, run_abm_with.
    destruct (n_genotype p) as [ng|]; cbn [bind step_then]; [|eexists; reflexivity].
    destruct (Mutation.random_mutations ng ng) as [P|e| |];
      cbn [bind step_then]; try (eexists; reflexivity).
    rewrite Hstop.
    destruct (init_counts p) as [c|]; cbn [bind step_then]; [|eexists; reflexivity].
    destruct (first_row ng c) as [row0|e| |];
      cbn [bind step_then]; try (eexists; reflexivity).
    apply Hloop.
  - intros traj mm. unfold run_abm, run_abm_with.
    destruct (n_genotype p) as [ng|]; cbn [bind step_then]; [|discriminate].
    destruct (Mutation.random_mutations ng ng) as [P|e| |];
      cbn [bind step_then]; try discriminate.
    rewrite Hstop.
    destruct (init_counts p) as [c|]; cbn [bind step_then]; [|discriminate].
    destruct (first_row ng c) as [row0|e| |];
      cbn [bind step_then]; try discriminate.
    apply Hloop.
  - intros counts mm f m. apply check_stop_cond_horizon.
Qed.

Lemma run_abm_stop_condition_witness :
  run_abm Examples.zero_fitness Examples.first_fittest Examples.short_horizon
          (fun _ => Examples.quiet 2)
  = Some (Ok ([[1; 0]; [1; 0]]%Z, 1%nat)) /\
  (0 < 1 < 3)%nat /\
  (exists f, Np.argmax Np.Qltb [1; 0] = Ok f /\ Np.argmax Z.ltb [1; 0]%Z = Ok f) /\
  check_stop_cond Examples.first_fittest Examples.short_horizon [1; 0]%Z 3
  = Raise (Warning stop_message).
Proof.
  destruct (run_abm_stop_condition Examples.zero_fitness Examples.first_fittest
              Examples.short_horizon (fun _ => Examples.quiet 2) eq_refl)
    as (_ & Hret & Hraise).
  assert (Hrun : run_abm Examples.zero_fitness Examples.first_fittest
                         Examples.short_horizon (fun _ => Examples.quiet 2)
                 = Some (Ok ([[1; 0]; [1; 0]]%Z, 1%nat)))
    by (vm_compute; reflexivity).
  destruct (Hret _ _ Hrun) as [Hrange Hfix].
  split; [exact Hrun|]. split; [exact Hrange|]. split; [exact Hfix|].
  apply (Hraise [1; 0]%Z 3%nat 0%nat 0%nat).
  - cbn. lia.
  - reflexivity.
  - reflexivity.
Defined.

(** ** The ramp experiment *)

Import Ramp.

Lemma Qltb_false x y : Np.Qltb x y = false <-> y <= x.
Proof.
  unfold Np.Qltb. destruct (Qcompare_spec x y) as [E|L|G].
  - split; [intros _; rewrite E; apply Qle_refl | reflexivity].
  - split; [discriminate | intro H; exfalso; apply (Qlt_not_le _ _ L H)].
  - split; [intros _; now apply Qlt_le_weak | reflexivity].
Qed.

(** Past the hold at the second dose, the loop body can only write the
    third dose when the slope is non-negative and the previous value is
    not below the third dose: the fourth branch never goes down. *)
Lemma ramp_step_after_hold e slope times drug_curve t prev :
  0 <= slope -> third_dose e <= prev ->
  previous drug_curve t = Ok prev ->
  Np.Qltb (inject_Z (Z.of_nat t)) (nth 0 times 0) = false ->
  Np.Qltb (inject_Z (Z.of_nat t)) (nth 1 times 0) = false ->
  Np.Qltb (inject_Z (Z.of_nat t)) (nth 2 times 0) = false ->
  ramp_step e slope times drug_curve t = set_index drug_curve t (third_dose e).
Proof.
  intros Hslope Hprev Hp H0 H1 H2. unfold ramp_step. rewrite H0, H1, H2.
  destruct (Np.Qltb (inject_Z (Z.of_nat t)) (nth 3 times 0)); [|reflexivity].
  rewrite Hp. cbn [bind].
  assert (Hno : Np.Qltb (prev + slope) (third_dose e) = false).
  { apply Qltb_false. lra. }
  now rewrite Hno.
Qed.

(** C8. With the defaults of the ramp experiment over 1000 timesteps
    (doses 0.01, 100000 and 10, ramp 100, transitions at 250 and 750) the
    curve of [set_ramp_ud] climbs by the same increment at every timestep
    from 200 to 299, holds 100000 up to timestep 699, and is equal to the
    third dose from timestep 700 on: the second transition is a single
    drop, not a ramp. *)
Theorem set_ramp_ud_drops_to_third_dose :
  exists curve,
    set_ramp_ud (default_experiment 1000) 1000 = Ok curve /\
    length curve = 1000%nat /\
    (forall t, (t < 200)%nat -> nth t curve 0 == 1 # 100) /\
    (forall t, (200 <= t < 300)%nat ->
       nth t curve 0 == (1 # 100) + inject_Z (Z.of_nat (t - 199)) * ((100000 - (1 # 100)) / 100)) /\
    (forall t, (300 <= t < 700)%nat -> nth t curve 0 == 100000) /\
    (forall t, (700 <= t < 1000)%nat -> nth t curve 0 == 10).
Proof.
  destruct (set_ramp_ud (default_experiment 1000) 1000) as [curve| | |] eqn:E;
    try (vm_compute in E; discriminate).
  exists curve. split; [reflexivity|].
  assert (Hrange : forall (f : nat -> Q) lo len,
             forallb (fun t => Np.Qeqb (nth t curve 0) (f t)) (seq lo len) = true ->
             forall t, (lo <= t < lo + len)%nat -> nth t curve 0 == f t).
  { intros f lo len H t Ht. rewrite forallb_forall in H.
    apply Qeqb_true. apply H. apply in_seq. exact Ht. }
  assert (Hcurve : Ok curve = set_ramp_ud (default_experiment 1000) 1000)
    by (symmetry; exact E).
  vm_compute in Hcurve. injection Hcurve as ->.
  split; [vm_compute; reflexivity|].
  split; [|split; [|split]].
  - intros t Ht. apply (Hrange (fun _ => 1 # 100) 0%nat 200%nat); [|lia].
    vm_compute. reflexivity.
  - intros t Ht.
    apply (Hrange (fun t => (1 # 100) + inject_Z (Z.of_nat (t - 199))
                                        * ((100000 - (1 # 100)) / 100))
                  200%nat 100%nat); [|lia].
    vm_compute. reflexivity.
  - intros t Ht. apply (Hrange (fun _ => 100000) 300%nat 400%nat); [|lia].
    vm_compute. reflexivity.
  - intros t Ht. apply (Hrange (fun _ => 10) 700%nat 300%nat); [|lia].
    vm_compute. reflexivity.
Qed.

(** ** Strings, distances and neighbours *)

Import Genotype.

Section MoreStrings.

Local Open Scope char_scope.

Lemma binary_value_snoc s ch :
  binary_value (s ++ [ch])
  = (2 * binary_value s + (if Ascii.eqb ch "1" then 1 else 0))%nat.
Proof. unfold binary_value. now rewrite fold_left_app. Qed.

Lemma binary_value_pos_digits p : binary_value (pos_digits p) = Pos.to_nat p.
Proof.
  induction p as [q IH|q IH|]; cbn [pos_digits]; try reflexivity;
    rewrite binary_value_snoc, IH; cbn [Ascii.eqb]; cbn.
  - rewrite Pos2Nat.inj_xI. lia.
  - rewrite Pos2Nat.inj_xO. lia.
Qed.

Lemma binary_value_zeros k s : binary_value (repeat "0" k ++ s) = binary_value s.
Proof.
  unfold binary_value. rewrite fold_left_app.
  replace (fold_left _ (repeat "0" k) 0%nat) with 0%nat; [reflexivity|].
  induction k as [|k IH]; [reflexivity|]. cbn. exact IH.
Qed.

End MoreStrings.

(** X1. Round trip of [int_to_binary]: whatever the number of genotypes,
    the string returned for [num], read as a binary numeral, is [num]; so
    two different genotypes never get the same string. *)
Theorem int_to_binary_round_trip :
  forall n_genotype num : nat,
    binary_value (int_to_binary n_genotype num) = num /\
    (forall num', int_to_binary n_genotype num' = int_to_binary n_genotype num ->
                  num' = num).
Proof.
  assert (Hval : forall n num, binary_value (int_to_binary n num) = num).
  { intros n num. unfold int_to_binary, zfill. rewrite binary_value_zeros.
    destruct num as [|k]; [reflexivity|].
    cbn [N.of_nat bin]. rewrite binary_value_pos_digits.
    apply SuccNat2Pos.id_succ. }
  intros n num. split; [apply Hval|].
  intros num' H. rewrite <- (Hval n num'), H. apply Hval.
Qed.

Lemma length_pos_digits p : length (pos_digits p) = S (Nat.log2 (Pos.to_nat p)).
Proof.
  induction p as [q IH|q IH|]; cbn [pos_digits]; try reflexivity;
    rewrite length_app, IH; cbn [length].
  - rewrite Pos2Nat.inj_xI.
    replace (S (2 * Pos.to_nat q)) with (2 * Pos.to_nat q + 1)%nat by lia.
    rewrite Nat.log2_succ_double by apply Pos2Nat.is_pos. lia.
  - rewrite Pos2Nat.inj_xO, Nat.log2_double by apply Pos2Nat.is_pos. lia.
Qed.

Lemma length_bin num : length (bin (N.of_nat num)) = S (Nat.log2 num).
Proof.
  destruct num as [|k]; [reflexivity|].
  cbn [N.of_nat bin]. now rewrite length_pos_digits, SuccNat2Pos.id_succ.
Qed.

Lemma length_zfill pad s : length (zfill pad s) = Nat.max pad (length s).
Proof. unfold zfill. rewrite length_app, repeat_length. lia. Qed.

(** X2. [int_to_binary] pads and never truncates: the string has
    [int(log2(n_genotype))] characters, or the number of binary digits of
    [num] when that is larger. *)
Theorem int_to_binary_length :
  forall n_genotype num : nat,
    length (int_to_binary n_genotype num)
    = Nat.max (Nat.log2 n_genotype) (S (Nat.log2 num)).
Proof.
  intros n num. unfold int_to_binary. now rewrite length_zfill, length_bin.
Qed.

(** X3. [hammingDistance] is symmetric, failed assertion included, and
    it returns zero exactly on two equal strings. *)
Theorem hammingDistance_symmetric_and_separating :
  forall s1 s2 : list ascii,
    hammingDistance s1 s2 = hammingDistance s2 s1 /\
    (hammingDistance s1 s2 = Ok 0%nat <-> s1 = s2).
Proof.
  intros s1 s2. split.
  - unfold hammingDistance. rewrite (Nat.eqb_sym (length s2)).
    now rewrite (count_diff_sym s1 s2).
  - unfold hammingDistance. split.
    + destruct (Nat.eqb_spec (length s1) (length s2)) as [Hlen|]; [|discriminate].
      intro H. injection H as H. revert s2 Hlen H.
      induction s1 as [|c s1 IH]; intros [|c' s2] Hlen H; cbn in *;
        try discriminate; [reflexivity|].
      destruct (Ascii.eqb_spec c c') as [->|]; [|discriminate].
      f_equal. apply IH; [lia | exact H].
    + intros <-. now rewrite Nat.eqb_refl, count_diff_refl.
Qed.

Lemma count_diff_triangle s1 : forall s2 s3,
  length s1 = length s2 -> length s2 = length s3 ->
  (count_diff s1 s3 <= count_diff s1 s2 + count_diff s2 s3)%nat.
Proof.
  induction s1 as [|a s1 IH]; intros [|b s2] [|c s3] H12 H23; cbn in *;
    try discriminate; [lia|].
  specialize (IH s2 s3 ltac:(lia) ltac:(lia)).
  destruct (Ascii.eqb_spec a c), (Ascii.eqb_spec a b), (Ascii.eqb_spec b c);
    subst; try congruence; lia.
Qed.

Lemma count_diff_bound s1 : forall s2, (count_diff s1 s2 <= length s1)%nat.
Proof.
  induction s1 as [|a s1 IH]; intros [|b s2]; cbn; try lia.
  specialize (IH s2). destruct (Ascii.eqb a b); lia.
Qed.

(** X4. Triangle inequality: when [hammingDistance] returns on [(s1, s2)]
    and on [(s2, s3)], it returns on [(s1, s3)], at most the sum of the
    two; and a distance never exceeds the length of the strings. *)
Theorem hammingDistance_triangle :
  forall (s1 s2 s3 : list ascii) (a b : nat),
    hammingDistance s1 s2 = Ok a -> hammingDistance s2 s3 = Ok b ->
    exists c, hammingDistance s1 s3 = Ok c /\
              (c <= a + b)%nat /\ (a <= length s1)%nat.
Proof.
  intros s1 s2 s3 a b. unfold hammingDistance.
  destruct (Nat.eqb_spec (length s1) (length s2)) as [H12|]; [|discriminate].
  destruct (Nat.eqb_spec (length s2) (length s3)) as [H23|]; [|discriminate].
  intros Ha Hb. injection Ha as <-. injection Hb as <-.
  replace (length s1 =? length s3)%nat with true
    by (symmetry; apply Nat.eqb_eq; congruence).
  eexists. split; [reflexivity|]. split.
  - now apply count_diff_triangle.
  - apply count_diff_bound.
Qed.

Lemma hammingDistance_triangle_witness :
  exists c, hammingDistance ["0"; "1"; "1"]%char ["1"; "1"; "0"]%char = Ok c /\
            (c <= 1 + 1)%nat /\ (1 <= 3)%nat.
Proof.
  apply (hammingDistance_triangle ["0"; "1"; "1"]%char ["0"; "1"; "0"]%char
           ["1"; "1"; "0"]%char 1 1); reflexivity.
Defined.

Section LeadingBit.

Local Open Scope char_scope.

Lemma fixed_width_leading_one A : forall a, (a < 2 ^ A)%nat ->
  fixed_width (S A) (2 ^ A + a) = "1" :: fixed_width A a.
Proof.
  induction A as [|A IH]; intros a Ha.
  - cbn in Ha. replace a with 0%nat by lia. reflexivity.
  - change (fixed_width (S (S A)) (2 ^ S A + a))
      with (fixed_width (S A) (Nat.div2 (2 ^ S A + a))
            ++ [if Nat.odd (2 ^ S A + a) then "1" else "0"]).
    rewrite Nat.pow_succ_r'.
    assert (Hdiv : Nat.div2 (2 * 2 ^ A + a) = (2 ^ A + Nat.div2 a)%nat).
    { rewrite !Nat.div2_div.
      replace (2 * 2 ^ A + a)%nat with (a + 2 ^ A * 2)%nat by lia.
      rewrite Nat.div_add by lia. lia. }
    assert (Hodd : Nat.odd (2 * 2 ^ A + a) = Nat.odd a).
    { rewrite Nat.add_comm. rewrite Nat.odd_add_mul_2. reflexivity. }
    rewrite Hdiv, Hodd, IH.
    + reflexivity.
    + rewrite Nat.div2_div. apply Nat.Div0.div_lt_upper_bound.
      rewrite Nat.pow_succ_r' in Ha. lia.
Qed.

Lemma bin_with_offset pad a : (a < 2 ^ pad)%nat ->
  bin (N.of_nat (2 ^ pad + a)) = "1" :: fixed_width pad a.
Proof.
  intro Ha.
  assert (Hpos : (0 < 2 ^ pad)%nat) by (apply Nat.neq_0_lt_0, Nat.pow_nonzero; lia).
  destruct (2 ^ pad + a)%nat as [|k] eqn:E; [lia|].
  cbn [N.of_nat bin].
  assert (Hto : Pos.to_nat (Pos.of_succ_nat k) = (2 ^ pad + a)%nat)
    by (rewrite SuccNat2Pos.id_succ; lia).
  assert (Hlog : Nat.log2 (2 ^ pad + a) = pad).
  { apply Nat.log2_unique; [lia|]. rewrite Nat.pow_succ_r'. lia. }
  rewrite <- fixed_width_leading_one by assumption.
  rewrite <- Hto, <- zfill_pos_digits.
  - unfold zfill. rewrite length_pos_digits, Hto, Hlog, Nat.sub_diag. reflexivity.
  - rewrite Hto, Nat.pow_succ_r'. lia.
Qed.

End LeadingBit.

Lemma fixed_width_digits A : forall n,
  Forall (fun ch => ch = "0"%char \/ ch = "1"%char) (fixed_width A n).
Proof.
  induction A as [|A IH]; intro n; cbn [fixed_width]; [constructor|].
  apply Forall_app. split; [apply IH|].
  constructor; [|constructor]. destruct (Nat.odd n); auto.
Qed.

(** X5. For [anInt] below [2**pad], [convertIntToGenotype] returns [pad]
    digits, each 0 or 1, and for [pad >= 1] they are the characters of
    [int_to_binary] on [2**pad] genotypes; with [pad = 0] it returns the
    empty list where [int_to_binary] returns ['0']. *)
Theorem convertIntToGenotype_digits :
  forall anInt pad : nat,
    (anInt < 2 ^ pad)%nat ->
    length (convertIntToGenotype anInt pad) = pad /\
    Forall (fun b => b = 0%Z \/ b = 1%Z) (convertIntToGenotype anInt pad) /\
    ((1 <= pad)%nat ->
     convertIntToGenotype anInt pad
     = map int_of_digit (int_to_binary (2 ^ pad) anInt)) /\
    (pad = 0%nat ->
     convertIntToGenotype anInt pad = [] /\
     int_to_binary (2 ^ pad) anInt = ["0"%char]).
Proof.
  intros a pad Ha. unfold convertIntToGenotype.
  rewrite bin_with_offset by assumption. cbn [tl].
  split; [now rewrite length_map, fixed_width_length|]. split; [|split].
  - pose proof (fixed_width_digits pad a) as H.
    induction H as [|ch l [->| ->] _ IH]; cbn [map]; constructor; auto.
  - intro Hpad. now rewrite int_to_binary_pow2 by assumption.
  - intros ->. cbn in Ha. replace a with 0%nat by lia. split; reflexivity.
Qed.

Lemma convertIntToGenotype_digits_witness :
  length (convertIntToGenotype 5 4) = 4%nat /\
  Forall (fun b => b = 0%Z \/ b = 1%Z) (convertIntToGenotype 5 4) /\
  convertIntToGenotype 5 4 = map int_of_digit (int_to_binary (2 ^ 4) 5).
Proof.
  destruct (convertIntToGenotype_digits 5 4 ltac:(cbn; lia)) as (Hl & Hd & He & _).
  split; [exact Hl|]. split; [exact Hd|]. apply He. lia.
Defined.

(** X6. For a genotype below [2**n_allele], [gen_neighbors] lists
    [n_allele] distinct genotypes of the same space, none of them the
    genotype itself, each at Hamming distance one from it, and each
    having the genotype among its own neighbours. *)
Theorem gen_neighbors_sound :
  forall n_allele genotype : nat,
    (genotype < 2 ^ n_allele)%nat ->
    length (gen_neighbors n_allele genotype) = n_allele /\
    NoDup (gen_neighbors n_allele genotype) /\
    (forall j, In j (gen_neighbors n_allele genotype) ->
       (j < 2 ^ n_allele)%nat /\ j <> genotype /\
       hammingDistance (int_to_binary (2 ^ n_allele) genotype)
                       (int_to_binary (2 ^ n_allele) j) = Ok 1%nat /\
       In genotype (gen_neighbors n_allele j)).
Proof.
  intros A i Hi. split; [unfold gen_neighbors; now rewrite length_map, length_seq|].
  split; [apply gen_neighbors_NoDup|].
  intros j Hj. rewrite gen_neighbors_pow2 in Hj.
  apply in_map_iff in Hj. destruct Hj as (m & <- & Hm). apply in_seq in Hm.
  assert (HA : (1 <= A)%nat) by lia.
  assert (Hd : dist A i (Nat.lxor i (2 ^ m)) = 1%nat) by (apply dist_flip; lia).
  assert (Hlt : (Nat.lxor i (2 ^ m) < 2 ^ A)%nat) by (apply lxor_pow2_bound; lia).
  split; [exact Hlt|]. split; [|split].
  - intro E. rewrite E in Hd. unfold dist in Hd. rewrite count_diff_refl in Hd.
    discriminate.
  - rewrite !int_to_binary_pow2 by assumption.
    unfold hammingDistance. rewrite !fixed_width_length, Nat.eqb_refl.
    fold (dist A i (Nat.lxor i (2 ^ m))). now rewrite Hd.
  - rewrite gen_neighbors_pow2. apply in_map_iff. exists m. split.
    + now rewrite Nat.lxor_assoc, Nat.lxor_nilpotent, Nat.lxor_0_r.
    + apply in_seq. lia.
Qed.

Lemma gen_neighbors_sound_witness :
  length (gen_neighbors 4 5) = 4%nat /\
  NoDup (gen_neighbors 4 5) /\
  (forall j, In j (gen_neighbors 4 5) ->
     (j < 2 ^ 4)%nat /\ j <> 5%nat /\
     hammingDistance (int_to_binary (2 ^ 4) 5) (int_to_binary (2 ^ 4) j) = Ok 1%nat /\
     In 5%nat (gen_neighbors 4 j)).
Proof. apply (gen_neighbors_sound 4 5). cbn. lia. Defined.

(** ** The mutation matrix on other genotype counts *)

Lemma mapM_first_raise {X Y} (f : X -> result Y) l1 x l2 e :
  (forall y, In y l1 -> exists v, f y = Ok v) -> f x = Raise e ->
  mapM f (l1 ++ x :: l2) = Raise e.
Proof.
  intros Hok Hx. induction l1 as [|y l1 IH]; cbn [app mapM].
  - now rewrite Hx.
  - destruct (Hok y (or_introl eq_refl)) as [v ->]. cbn [bind].
    rewrite IH by (intros z Hz; apply Hok; now right). reflexivity.
Qed.

(** X7. With a genotype count strictly between two powers of two (3, 5,
    6, 7, 9, ...), [random_mutations] stops on the assertion of
    [hammingDistance]: the string of genotype [2**a] is one character
    longer than the padding.  With one genotype the only row sum is zero
    and the matrix is not finite; with none it is empty. *)
Theorem random_mutations_other_counts :
  (forall N a : nat, (1 <= a)%nat -> (2 ^ a < N < 2 ^ S a)%nat ->
     random_mutations N N = Raise AssertionError) /\
  random_mutations 1 1 = NonFinite /\
  random_mutations 0 0 = Ok [].
Proof.
  split; [|split; reflexivity].
  intros N a Ha [Hlo Hhi].
  assert (Hlog : Nat.log2 N = a) by (apply Nat.log2_unique; lia).
  assert (Hlen0 : length (int_to_binary N 0) = a).
  { rewrite int_to_binary_length, Hlog. cbn. lia. }
  assert (Hrow : hamming_row N N 0 = Raise AssertionError).
  { unfold hamming_row.
    assert (Hseq : seq 0 N = seq 0 (2 ^ a) ++ (2 ^ a)%nat :: seq (S (2 ^ a)) (N - 2 ^ a - 1)).
    { replace N with (2 ^ a + S (N - 2 ^ a - 1))%nat at 1 by lia.
      rewrite seq_app. reflexivity. }
    rewrite Hseq. apply mapM_first_raise.
    - intros y Hy. apply in_seq in Hy. unfold hammingDistance.
      rewrite Hlen0, int_to_binary_length, Hlog.
      assert (Hy' : (S (Nat.log2 y) <= a)%nat).
      { destruct y as [|y]; [cbn; lia|]. apply Nat.log2_lt_pow2; lia. }
      replace (Nat.max a (S (Nat.log2 y))) with a by lia.
      rewrite Nat.eqb_refl. cbn [bind]. eexists; reflexivity.
    - unfold hammingDistance.
      rewrite Hlen0, int_to_binary_length, Hlog, Nat.log2_pow2 by lia.
      replace (Nat.max a (S a)) with (S a) by lia.
      destruct (Nat.eqb_spec a (S a)); [lia | reflexivity]. }
  unfold random_mutations, hamming_matrix.
  destruct N as [|N]; [lia|]. cbn [seq mapM]. now rewrite Hrow.
Qed.

Lemma random_mutations_other_counts_witness :
  random_mutations 6 6 = Raise AssertionError.
Proof.
  destruct random_mutations_other_counts as [H _].
  apply (H 6%nat 2%nat); cbn; lia.
Defined.

Lemma gen_neighbors_iff_dist A i j : (i < 2 ^ A)%nat -> (j < 2 ^ A)%nat ->
  In j (gen_neighbors A i) <-> dist A i j = 1%nat.
Proof.
  intros Hi Hj. split.
  - intro H. rewrite gen_neighbors_pow2 in H. apply in_map_iff in H.
    destruct H as (m & <- & Hm). apply in_seq in Hm. apply dist_flip. lia.
  - now apply neighbours_at_distance_one.
Qed.

Lemma trans_form_column_sum A g : (1 <= A)%nat ->
  Np.sumQ (map (fun i => weight A i g / weight_sum A g) (seq 0 (2 ^ A))) == 1.
Proof.
  intro HA.
  rewrite (sumQ_div_const (fun i => weight A i g) (fun _ => weight_sum A g)
                          (inject_Z (Z.of_nat A))) by (intro; apply weight_sum_eq).
  rewrite (map_ext _ (weight A g)) by (intro; apply weight_sym).
  fold (weight_sum A g). rewrite weight_sum_eq.
  apply Qmult_inv_r. intro H. unfold Qeq in H. cbn [Qnum Qden inject_Z] in H. lia.
Qed.

Lemma trans_form_entry_value A i j : (1 <= A)%nat ->
  weight A i j / weight_sum A j
  == (if (dist A i j =? 1)%nat then 1 / inject_Z (Z.of_nat A) else 0).
Proof.
  intro HA. rewrite weight_sum_eq. unfold weight.
  destruct (dist A i j =? 1)%nat; [reflexivity|]. unfold Qdiv. ring.
Qed.

(** X8. On [N = 2^A] genotypes, [A >= 1], the matrix of
    [random_mutations] holds [1/A] at [(i, j)] when [j] is one of the
    [gen_neighbors] of [i] and [0] everywhere else, the diagonal included;
    every column [P[:, g]] has [N] entries, none negative, of sum one, so
    that [np.random.choice] never rejects it. *)
Theorem random_mutations_entries :
  forall A N : nat, (1 <= A)%nat -> N = (2 ^ A)%nat ->
  exists P, random_mutations N N = Ok P /\
    (forall i j, (i < N)%nat -> (j < N)%nat ->
       (In j (gen_neighbors A i) -> entry P i j == 1 / inject_Z (Z.of_nat A)) /\
       (~ In j (gen_neighbors A i) -> entry P i j == 0)) /\
    (forall g, (g < N)%nat ->
       exists col, Np.column P g = Ok col /\
         length col = N /\
         Forall (fun x => 0 <= x) col /\
         Np.sumQ col == 1 /\
         forall size drawn, Rand.choice N size col drawn <> Raise ValueError).
Proof.
  intros A N HA ->. exists (trans_form A).
  split; [now apply random_mutations_pow2|]. split.
  - intros i j Hi Hj. rewrite trans_form_entry by assumption.
    rewrite trans_form_entry_value by assumption.
    rewrite (gen_neighbors_iff_dist A i j Hi Hj).
    destruct (Nat.eqb_spec (dist A i j) 1); split; intro; try reflexivity;
      contradiction.
  - intros g Hg. eexists. split; [now apply trans_form_column|].
    assert (Hlen : length (map (fun i => weight A i g / weight_sum A g) (seq 0 (2 ^ A)))
                   = (2 ^ A)%nat) by now rewrite length_map, length_seq.
    assert (Hpos : Forall (fun x => 0 <= x)
                          (map (fun i => weight A i g / weight_sum A g) (seq 0 (2 ^ A)))).
    { apply Forall_forall. intros x Hx. apply in_map_iff in Hx.
      destruct Hx as (i & <- & _). rewrite trans_form_entry_value by assumption.
      destruct (dist A i g =? 1)%nat; [|apply Qle_refl].
      apply Qle_shift_div_l; [|lra].
      change 0 with (inject_Z 0). rewrite <- Zlt_Qlt. lia. }
    pose proof (trans_form_column_sum A g HA) as Hsum.
    split; [exact Hlen|]. split; [exact Hpos|]. split; [exact Hsum|].
    intros size drawn. unfold Rand.choice.
    assert (Hnz : (2 ^ A =? 0)%nat = false)
      by (apply Nat.eqb_neq, Nat.pow_nonzero; lia).
    rewrite Hnz, Hlen, Nat.eqb_refl. cbn [andb negb].
    assert (Hneg : existsb (fun x => Np.Qltb x 0)
                           (map (fun i => weight A i g / weight_sum A g) (seq 0 (2 ^ A)))
                   = false).
    { destruct (existsb _ _) eqn:E; [|reflexivity]. exfalso.
      apply existsb_exists in E. destruct E as (x & Hx & Hlt).
      rewrite Forall_forall in Hpos. specialize (Hpos x Hx).
      unfold Np.Qltb in Hlt. destruct (Qcompare_spec x 0) as [|Hl|]; try discriminate.
      apply (Qlt_not_le _ _ Hl Hpos). }
    rewrite Hneg. apply Qeqb_true in Hsum. rewrite Hsum. cbn [negb].
    destruct (_ && _); discriminate.
Qed.

Lemma random_mutations_entries_witness :
  exists P, random_mutations 4 4 = Ok P /\
    (forall i j, (i < 4)%nat -> (j < 4)%nat ->
       (In j (gen_neighbors 2 i) -> entry P i j == 1 / inject_Z (Z.of_nat 2)) /\
       (~ In j (gen_neighbors 2 i) -> entry P i j == 0)) /\
    (forall g, (g < 4)%nat ->
       exists col, Np.column P g = Ok col /\
         length col = 4%nat /\
         Forall (fun x => 0 <= x) col /\
         Np.sumQ col == 1 /\
         forall size drawn, Rand.choice 4 size col drawn <> Raise ValueError).
Proof. apply (random_mutations_entries 2 4); [lia | reflexivity]. Defined.

(** ** More on passaging and on the normalisation *)










(** ** Invariants of the update step, default death model *)







Lemma inplace_same {X Y} (f : X -> Y -> X) a b :
  length a = length b -> Np.inplace f a b = Ok (Np.map2 f a b).
Proof. intro H. unfold Np.inplace. now rewrite H, Nat.eqb_refl. Qed.

Lemma length_map2 {X Y W} (f : X -> Y -> W) a : forall b,
  length a = length b -> length (Np.map2 f a b) = length a.
Proof.
  induction a as [|x a IH]; intros [|y b] H; cbn in *; try discriminate;
    [reflexivity|]. f_equal. apply IH. lia.
Qed.


Lemma nth_map2_add a : forall b i, length a = length b ->
  nth i (Np.map2 Z.add a b) 0%Z = (nth i a 0 + nth i b 0)%Z.
Proof.
  induction a as [|x a IH]; intros [|y b] i H; cbn [Np.map2]; try discriminate.
  - now destruct i.
  - destruct i as [|i]; [reflexivity|]. cbn [nth]. apply IH. cbn in H. lia.
Qed.





















(** ** The shape of a trajectory *)

Lemma length_inplace {X Y} (f : X -> Y -> X) a b r :
  Np.inplace f a b = Ok r -> length r = length a.
Proof.
  unfold Np.inplace.
  destruct (Nat.eqb_spec (length a) (length b)) as [Hl|_].
  - intro H. injection H as <-. rewrite length_map2; lia.
  - destruct b as [|y [|]]; try discriminate.
    intro H. injection H as <-. apply length_map.
Qed.

Lemma first_row_length ng c row0 : first_row ng c = Ok row0 -> length row0 = ng.
Proof.
  unfold first_row. intro H. apply length_inplace in H.
  now rewrite repeat_length in H.
Qed.

Lemma steps_rows gen p ng P draws mm r k rows :
  steps gen p ng P draws mm r k rows -> Forall (fun row => length row = ng) rows.
Proof.
  induction 1 as [|mm row k v row' rows _ Hst _ IH]; constructor; [|exact IH].
  unfold stored in Hst. apply length_inplace in Hst.
  now rewrite repeat_length in Hst.
Qed.

Lemma stop_loop_shape gen fit p ng P draws : forall fuel counts mm traj mm',
  stop_loop gen fit fuel p ng P draws counts mm = Some (Ok (traj, mm')) ->
  length counts = S mm -> Forall (fun row => length row = ng) counts ->
  length traj = S mm' /\ Forall (fun row => length row = ng) traj /\
  exists rest, traj = counts ++ rest.
Proof.
  induction fuel as [|fuel IH]; intros counts mm traj mm' H Hlen Hall;
    [discriminate|].
  cbn [stop_loop] in H.
  destruct (index counts mm) as [row| | |]; cbn [bind step_then] in H;
    try discriminate.
  destruct (abm gen p mm ng P row (draws mm)) as [v| | |];
    cbn [bind step_then] in H; try discriminate.
  unfold append_row in H.
  destruct (Nat.eqb_spec (length v) ng) as [Hv|_]; cbn [bind step_then] in H;
    [|discriminate].
  destruct (check_stop_cond fit p v (S mm)) as [stop| | |];
    cbn [bind step_then] in H; try discriminate.
  assert (Hlen' : length (counts ++ [v]) = S (S mm))
    by (rewrite length_app; cbn; lia).
  assert (Hall' : Forall (fun row => length row = ng) (counts ++ [v]))
    by (apply Forall_app; split; [assumption | now constructor]).
  destruct stop.
  - injection H as <- <-. repeat split; try assumption. now exists [v].
  - destruct (IH _ _ _ _ H Hlen' Hall') as (H1 & H2 & rest & ->).
    repeat split; try assumption. exists (v :: rest). now rewrite <- app_assoc.
Qed.

Lemma run_abm_cases gen fit (p : PopParams) draws ng traj mm :
  n_genotype p = Some ng ->
  run_abm gen fit p draws = Some (Ok (traj, mm)) ->
  length traj = S mm /\
  Forall (fun row => length row = ng) traj /\
  (exists c, init_counts p = Some c /\ first_row ng c = Ok (hd [] traj)) /\
  (if stop_condition p then (0 < mm < n_timestep p)%nat
   else mm = (n_timestep p - 1)%nat /\ (1 <= n_timestep p)%nat).
Proof.
  intros Hng. unfold run_abm, run_abm_with.
  rewrite Hng. cbn [bind].
  destruct (random_mutations ng ng) as [P| | |]; cbn [bind step_then];
    try discriminate.
  destruct (stop_condition p).
  - destruct (init_counts p) as [c|]; cbn [bind step_then]; [|discriminate].
    destruct (first_row ng c) as [row0| | |] eqn:Hrow; cbn [bind step_then];
      try discriminate.
    intro H. pose proof (first_row_length _ _ _ Hrow) as Hl.
    destruct (stop_loop_spec gen fit p ng P draws (n_timestep p)
                (S (n_timestep p)) [row0] 0) as [_ Hspec]; [lia | lia |].
    destruct (Hspec _ _ H) as [Hmm _].
    apply stop_loop_shape in H; [| reflexivity | now constructor].
    destruct H as (H1 & H2 & rest & ->). repeat split; try assumption; try lia.
    exists c. now split.
  - destruct (n_timestep p) as [|k] eqn:En; [discriminate|].
    destruct (init_counts p) as [c|]; cbn [bind step_then]; [|discriminate].
    destruct (first_row ng c) as [row0| | |] eqn:Hrow; cbn [bind step_then];
      try discriminate.
    intro H. pose proof (first_row_length _ _ _ Hrow) as Hl.
    destruct (fixed_loop_spec gen p ng P draws k (S (S k)) [] row0 0)
      as [_ Hiff]; [reflexivity | rewrite En; lia | lia |].
    cbn [app] in Hiff. apply Hiff in H. destruct H as [-> (rows & -> & Hsteps)].
    cbn [length hd Nat.add]. split; [|split; [|split]].
    + f_equal. eapply steps_length; eassumption.
    + constructor; [assumption|]. eapply steps_rows; eassumption.
    + exists c. now split.
    + lia.
Qed.

(** X14. Whatever the mode, a trajectory returned by [run_abm] with the
    timestep [mm] has [mm + 1] rows of [n_genotype] counts each, and its
    first row is [init_counts] cast to integers. *)
Theorem run_abm_shape :
  forall gen_abm_fl_md gen_fit_land (p : PopParams) (draws : nat -> Rand.Draws)
         (ng : nat) (traj : list (list Z)) (mm : nat),
    n_genotype p = Some ng ->
    run_abm gen_abm_fl_md gen_fit_land p draws = Some (Ok (traj, mm)) ->
    length traj = S mm /\
    Forall (fun row => length row = ng) traj /\
    exists c, init_counts p = Some c /\ first_row ng c = Ok (hd [] traj).
Proof.
  intros gen fit p draws ng traj mm Hng H.
  destruct (run_abm_cases gen fit p draws ng traj mm Hng H) as (H1 & H2 & H3 & _).
  now repeat split.
Qed.

Lemma run_abm_shape_witness :
  length [[1; 0]; [1; 0]]%Z = 2%nat /\
  Forall (fun row : list Z => length row = 2%nat) [[1; 0]; [1; 0]]%Z /\
  exists c, init_counts Examples.short_horizon = Some c /\
            first_row 2 c = Ok (hd [] [[1; 0]; [1; 0]]%Z).
Proof.
  apply (run_abm_shape Examples.zero_fitness Examples.first_fittest
           Examples.short_horizon (fun _ => Examples.quiet 2) 2
           [[1; 0]; [1; 0]]%Z 1).
  - reflexivity.
  - vm_compute. reflexivity.
Defined.

(** ** Replicates: [simulate] *)

Import Simulate.

Lemma nth_map2 {X Y W} (f : X -> Y -> W) dx dy dw a : forall b i,
  length a = length b -> (i < length a)%nat ->
  nth i (Np.map2 f a b) dw = f (nth i a dx) (nth i b dy).
Proof.
  induction a as [|x a IH]; intros [|y b] i H Hi; cbn in *; try lia.
  destruct i as [|i]; [reflexivity|]. apply IH; lia.
Qed.

Lemma add_counts_same ng avg : forall counts,
  length avg = length counts ->
  Forall (fun row => length row = ng) avg ->
  Forall (fun row => length row = ng) counts ->
  add_counts avg counts
  = Ok (Np.map2 (Np.map2 (fun a c => a + inject_Z c)) avg counts).
Proof.
  intros counts Hlen Ha Hc. unfold add_counts. rewrite Hlen, Nat.eqb_refl.
  revert counts Hlen Hc.
  induction Ha as [|a avg Hla _ IH]; intros [|c counts] Hlen Hc;
    cbn in Hlen; try discriminate; [reflexivity|].
  inversion Hc as [|? ? Hlc Hc']; subst.
  cbn [combine mapM Np.map2]. unfold add_row at 1.
  rewrite inplace_same by congruence. cbn [bind].
  rewrite IH by (assumption || lia). reflexivity.
Qed.

Lemma add_counts_rows avg counts r :
  add_counts avg counts = Ok r ->
  length counts = length avg \/ length counts = 1%nat.
Proof.
  unfold add_counts.
  destruct (Nat.eqb_spec (length avg) (length counts)) as [->|_]; [now left|].
  destruct counts as [|row [|]]; try discriminate. now right.
Qed.

Lemma Forall_map2_rows {X Y} (f : X -> Y -> X) ng a : forall b,
  length a = length b ->
  Forall (fun row => length row = ng) a ->
  Forall (fun row => length row = ng) b ->
  Forall (fun row => length row = ng) (Np.map2 (Np.map2 f) a b).
Proof.
  induction a as [|x a IH]; intros [|y b] Hlen Ha Hb; cbn in *;
    try discriminate; [constructor|].
  inversion Ha; inversion Hb; subst. constructor.
  - rewrite length_map2; congruence.
  - apply IH; (assumption || lia).
Qed.

Section Averages.

Variable gen_abm_fl_md : PopParams -> nat -> list Z -> list Q.
Variable gen_fit_land : PopParams -> Q -> list Q.
Variable plot_timecourse : list (list Z) -> result unit.
Variables (p : PopParams) (ng : nat) (plot : bool).
Variable draws : nat -> nat -> Rand.Draws.
Hypothesis Hng : n_genotype p = Some ng.

(** The loop of [simulate], started on averages of the shape of
    [np.zeros([n_timestep, n_genotype])]. *)
Lemma simulate_loop_spec : forall sims avg ft avg' ft',
  length avg = n_timestep p ->
  Forall (fun row => length row = ng) avg ->
  simulate_loop gen_abm_fl_md gen_fit_land plot_timecourse p plot draws sims avg ft
  = Some (Ok (avg', ft')) ->
  ft' = ft ++ repeat (n_timestep p - 1)%nat (length sims) /\
  length avg' = n_timestep p /\
  Forall (fun row => length row = ng) avg' /\
  forall trajs : nat -> list (list Z),
    (forall i, In i sims ->
       exists mm, run_abm gen_abm_fl_md gen_fit_land p (draws i)
                  = Some (Ok (trajs i, mm))) ->
    forall t g, (t < n_timestep p)%nat -> (g < ng)%nat ->
      nth g (nth t avg' []) 0
      == nth g (nth t avg []) 0
         + Np.sumQ (map (fun i => inject_Z (nth g (nth t (trajs i) []) 0%Z)) sims).
Proof.
  induction sims as [|i sims IH]; intros avg ft avg' ft' Hlen Hrows H.
  - cbn in H. injection H as <- <-. rewrite app_nil_r.
    repeat split; try assumption. intros trajs _ t g _ _. cbn. ring.
  - cbn [simulate_loop] in H.
    destruct (run_abm gen_abm_fl_md gen_fit_land p (draws i))
      as [[[counts mm]| | |]|] eqn:Hrun; cbn [bind step_then] in H;
      try discriminate.
    destruct (run_abm_cases _ _ _ _ _ _ _ Hng Hrun) as (Hc1 & Hc2 & _ & Hmode).
    destruct (add_counts avg counts) as [avg1| | |] eqn:Hadd;
      cbn [bind step_then] in H; try discriminate.
    assert (Hmm : mm = (n_timestep p - 1)%nat /\ length avg = length counts).
    { apply add_counts_rows in Hadd. destruct (stop_condition p); lia. }
    destruct Hmm as [Hmm Hsame].
    rewrite (add_counts_same ng) in Hadd by assumption.
    injection Hadd as <-.
    destruct (if plot then plot_timecourse counts else Ok tt) as [[]| | |];
      cbn [bind step_then] in H; try discriminate.
    apply IH in H.
    + destruct H as (-> & Hl & Hr & Hmean). split; [|split; [|split]].
      * rewrite <- app_assoc. cbn [length repeat app]. now rewrite Hmm.
      * exact Hl.
      * exact Hr.
      * intros trajs Htr t g Ht Hg.
        rewrite (Hmean trajs) by (intros; apply Htr; now right) || assumption.
        destruct (Htr i (or_introl eq_refl)) as (mm' & Hrun').
        rewrite Hrun in Hrun'. injection Hrun' as Htraj _.
        cbn [map]. rewrite sumQ_cons.
        rewrite (nth_map2 _ [] [] []) by lia.
        assert (Hla : length (nth t avg []) = ng).
        { rewrite Forall_forall in Hrows. apply Hrows, nth_In. lia. }
        assert (Hlc : length (nth t counts []) = ng).
        { rewrite Forall_forall in Hc2. apply Hc2, nth_In. lia. }
        rewrite (nth_map2 _ 0 0%Z 0) by lia.
        rewrite <- Htraj. ring.
    + rewrite length_map2; assumption.
    + apply Forall_map2_rows; assumption.
Qed.

End Averages.

Lemma nth_repeat_row ng n t g : nth g (nth t (repeat (repeat 0 ng) n) []) 0 == 0.
Proof.
  destruct (Nat.lt_ge_cases t n) as [Ht|Ht].
  - rewrite nth_repeat_lt by assumption.
    destruct (Nat.lt_ge_cases g ng) as [Hg|Hg].
    + now rewrite nth_repeat_lt.
    + rewrite nth_overflow by (now rewrite repeat_length). reflexivity.
  - rewrite (nth_overflow (repeat (repeat 0 ng) n)) by (now rewrite repeat_length).
    now destruct g.
Qed.

Lemma simulate_inv gen fit pt (p : PopParams) ng n_sims plot draws avg ft :
  n_genotype p = Some ng ->
  simulate gen fit pt p n_sims plot draws = Some (Ok (avg, ft)) ->
  exists avg0,
    simulate_loop gen fit pt p plot draws (seq 0 n_sims)
                  (repeat (repeat 0 ng) (n_timestep p)) []
    = Some (Ok (avg0, ft)) /\
    divide avg0 n_sims = Ok avg.
Proof.
  intros Hng. unfold simulate. rewrite Hng.
  destruct (simulate_loop _ _ _ _ _ _ _ _ _) as [[[avg0 ft0]| | |]|];
    cbn [bind]; try discriminate.
  destruct (divide avg0 n_sims) as [avg1| | |] eqn:Hd; cbn [bind];
    try discriminate.
  intro H. injection H as <- <-. now exists avg0.
Qed.

Lemma divide_empty avg r ng :
  divide avg 0 = Ok r -> Forall (fun row => length row = ng) avg ->
  length avg = 0%nat \/ ng = 0%nat.
Proof.
  unfold divide. cbn [Nat.eqb].
  destruct avg as [|row avg]; [now left|]. cbn [forallb].
  destruct row; [|discriminate]. intros _ H. inversion H. now right.
Qed.

(** X15. Whenever [simulate] returns an array of numbers, in either
    mode, every fixation time it reports is [n_timestep - 1], one per
    replicate, and the averages form [n_timestep] rows of [n_genotype]
    entries; with [n_sims = 0] this happens only for an empty array, any
    entry being [0/0]. *)
Theorem simulate_fixation_times :
  forall gen_abm_fl_md gen_fit_land plot_timecourse (p : PopParams)
         (n_sims : nat) (plot : bool) (draws : nat -> nat -> Rand.Draws)
         (ng : nat) (avg : list (list Q)) (ft : list nat),
    n_genotype p = Some ng ->
    simulate gen_abm_fl_md gen_fit_land plot_timecourse p n_sims plot draws
    = Some (Ok (avg, ft)) ->
    ft = repeat (n_timestep p - 1)%nat n_sims /\
    length avg = n_timestep p /\
    Forall (fun row => length row = ng) avg /\
    (n_sims = 0%nat -> n_timestep p = 0%nat \/ ng = 0%nat).
Proof.
  intros gen fit pt p n_sims plot draws ng avg ft Hng H.
  destruct (simulate_inv _ _ _ _ _ _ _ _ _ _ Hng H) as (avg0 & Hloop & Hdiv).
  apply (simulate_loop_spec gen fit pt p ng plot draws Hng) in Hloop;
    [| now rewrite repeat_length
     | apply Forall_forall; intros row Hin; apply repeat_spec in Hin; subst;
       apply repeat_length ].
  destruct Hloop as (-> & Hl & Hr & _). rewrite length_seq. cbn [app].
  split; [reflexivity|].
  unfold divide in Hdiv. destruct n_sims as [|k].
  - pose proof (divide_empty avg0 avg ng) as He. unfold divide in He.
    specialize (He Hdiv Hr). cbn [Nat.eqb] in Hdiv.
    destruct (forallb _ avg0); [|discriminate]. injection Hdiv as <-.
    repeat split; try assumption. intros _. lia.
  - cbn [Nat.eqb] in Hdiv. injection Hdiv as <-. rewrite length_map.
    repeat split; try assumption; [|discriminate].
    apply Forall_map. revert Hr. apply Forall_impl. intros row <-.
    apply length_map.
Qed.


Lemma simulate_fixation_times_witness :
  [2%nat; 2%nat] = repeat (n_timestep Examples.fixed_three - 1)%nat 2 /\
  length [[2 # 2; 0 # 2]; [2 # 2; 0 # 2]; [2 # 2; 0 # 2]]
  = n_timestep Examples.fixed_three /\
  Forall (fun row : list Q => length row = 2%nat)
         [[2 # 2; 0 # 2]; [2 # 2; 0 # 2]; [2 # 2; 0 # 2]] /\
  (2%nat = 0%nat -> n_timestep Examples.fixed_three = 0%nat \/ 2%nat = 0%nat).
Proof.
  apply (simulate_fixation_times Examples.zero_fitness Examples.first_fittest
           (fun _ => Ok tt) Examples.fixed_three
           2 true (fun _ _ => Examples.quiet 2) 2).
  - reflexivity.
  - vm_compute. reflexivity.
Defined.

(** X16. The array returned by [simulate] is the entrywise mean of the
    trajectories of the replicates: at every timestep and genotype, the
    sum over the [n_sims] runs of [run_abm] divided by [n_sims], which is
    then positive. *)
Theorem simulate_mean :
  forall gen_abm_fl_md gen_fit_land plot_timecourse (p : PopParams)
         (n_sims : nat) (plot : bool) (draws : nat -> nat -> Rand.Draws)
         (ng : nat) (avg : list (list Q)) (ft : list nat)
         (trajs : nat -> list (list Z)),
    n_genotype p = Some ng ->
    simulate gen_abm_fl_md gen_fit_land plot_timecourse p n_sims plot draws
    = Some (Ok (avg, ft)) ->
    (forall i, (i < n_sims)%nat ->
       exists mm, run_abm gen_abm_fl_md gen_fit_land p (draws i)
                  = Some (Ok (trajs i, mm))) ->
    forall t g, (t < n_timestep p)%nat -> (g < ng)%nat ->
      (0 < n_sims)%nat /\
      nth g (nth t avg []) 0
      == Np.sumQ (map (fun i => inject_Z (nth g (nth t (trajs i) []) 0%Z))
                      (seq 0 n_sims))
         / inject_Z (Z.of_nat n_sims).
Proof.
  intros gen fit pt p n_sims plot draws ng avg ft trajs Hng H Htr t g Ht Hg.
  destruct (simulate_inv _ _ _ _ _ _ _ _ _ _ Hng H) as (avg0 & Hloop & Hdiv).
  apply (simulate_loop_spec gen fit pt p ng plot draws Hng) in Hloop;
    [| now rewrite repeat_length
     | apply Forall_forall; intros row Hin; apply repeat_spec in Hin; subst;
       apply repeat_length ].
  destruct Hloop as (_ & Hl & Hr & Hmean).
  specialize (Hmean trajs).
  assert (Hin : forall i, In i (seq 0 n_sims) ->
                  exists mm, run_abm gen fit p (draws i) = Some (Ok (trajs i, mm))).
  { intros i Hi. apply in_seq in Hi. apply Htr. lia. }
  specialize (Hmean Hin t g Ht Hg). rewrite nth_repeat_row, Qplus_0_l in Hmean.
  destruct n_sims as [|k].
  - destruct (divide_empty avg0 avg ng Hdiv Hr); lia.
  - split; [lia|]. unfold divide in Hdiv. cbn [Nat.eqb] in Hdiv.
    injection Hdiv as <-.
    assert (Hrow : length (nth t avg0 []) = ng).
    { rewrite Forall_forall in Hr. apply Hr, nth_In. lia. }
    rewrite (nth_indep _ [] (map (fun x => x / inject_Z (Z.of_nat (S k))) []))
      by (rewrite length_map; lia).
    rewrite (map_nth (map (fun x => x / inject_Z (Z.of_nat (S k))))).
    rewrite (nth_indep _ 0 ((fun x => x / inject_Z (Z.of_nat (S k))) 0))
      by (rewrite length_map; lia).
    rewrite (map_nth (fun x => x / inject_Z (Z.of_nat (S k)))).
    now rewrite Hmean.
Qed.

Lemma simulate_mean_witness :
  (0 < 2)%nat /\
  nth 0 (nth 1 [[2 # 2; 0 # 2]; [2 # 2; 0 # 2]; [2 # 2; 0 # 2]] []) 0
  == Np.sumQ (map (fun i : nat =>
                     inject_Z (nth 0 (nth 1 [[1; 0]; [1; 0]; [1; 0]]%Z []) 0%Z))
                  (seq 0 2))
     / inject_Z (Z.of_nat 2).
Proof.
  apply (simulate_mean Examples.zero_fitness Examples.first_fittest
           (fun _ => Ok tt) Examples.fixed_three
           2 true (fun _ _ => Examples.quiet 2) 2
           [[2 # 2; 0 # 2]; [2 # 2; 0 # 2]; [2 # 2; 0 # 2]] [2%nat; 2%nat]
           (fun _ => [[1; 0]; [1; 0]; [1; 0]]%Z)).
  - reflexivity.
  - vm_compute. reflexivity.
  - intros i _. exists 2%nat. vm_compute. reflexivity.
  - cbn. lia.
  - lia.
Defined.

(** X17. In the stop-condition mode a replicate that reaches fixation
    before timestep [n_timestep - 1] breaks [simulate]: its trajectory has
    fewer rows than [avg_counts], the in-place sum raises [ValueError],
    and no average is returned. *)
Theorem simulate_early_fixation_raises :
  forall gen_abm_fl_md gen_fit_land plot_timecourse (p : PopParams)
         (n_sims : nat) (plot : bool) (draws : nat -> nat -> Rand.Draws)
         (traj : list (list Z)) (mm : nat),
    stop_condition p = true ->
    (0 < n_sims)%nat ->
    run_abm gen_abm_fl_md gen_fit_land p (draws 0%nat) = Some (Ok (traj, mm)) ->
    (mm < n_timestep p - 1)%nat ->
    simulate gen_abm_fl_md gen_fit_land plot_timecourse p n_sims plot draws
    = Some (Raise ValueError).
Proof.
  intros gen fit pt p n_sims plot draws traj mm Hstop Hn Hrun Hmm.
  destruct (n_genotype p) as [ng|] eqn:Hng.
  - destruct (run_abm_cases _ _ _ _ _ _ _ Hng Hrun) as (Hl & _ & _ & Hmode).
    rewrite Hstop in Hmode.
    unfold simulate. rewrite Hng.
    destruct n_sims as [|k]; [lia|]. cbn [seq simulate_loop]. rewrite Hrun.
    cbn [bind step_then]. unfold add_counts. rewrite repeat_length.
    destruct (Nat.eqb_spec (n_timestep p) (length traj)) as [He|_]; [lia|].
    destruct traj as [|r1 [|r2 traj]]; cbn in Hl; try lia; reflexivity.
  - unfold run_abm, run_abm_with in Hrun. rewrite Hng in Hrun. discriminate.
Qed.

Lemma simulate_early_fixation_raises_witness :
  simulate Examples.zero_fitness Examples.first_fittest (fun _ => Ok tt)
           Examples.short_horizon 2 true (fun _ _ => Examples.quiet 2)
  = Some (Raise ValueError).
Proof.
  apply (simulate_early_fixation_raises Examples.zero_fitness
           Examples.first_fittest (fun _ => Ok tt) Examples.short_horizon
           2 true (fun _ _ => Examples.quiet 2) [[1; 0]; [1; 0]]%Z 1).
  - reflexivity.
  - lia.
  - vm_compute. reflexivity.
  - cbn. lia.
Defined.

(** ** More on the ramp *)

Import RampEntry.

Lemma set_index_total {X} (d : X) l : forall g x, (g < length l)%nat ->
  exists l', set_index l g x = Ok l' /\ length l' = length l /\
             forall i, nth i l' d = if (i =? g)%nat then x else nth i l d.
Proof.
  induction l as [|y l IH]; intros g x Hg; cbn in Hg; [lia|].
  destruct g as [|g].
  - eexists. split; [reflexivity|]. split; [reflexivity|]. now intros [|i].
  - destruct (IH g x ltac:(lia)) as (r & Hr & Hl & Hn).
    exists (y :: r). cbn [set_index]. rewrite Hr. cbn [bind].
    split; [reflexivity|]. split; [cbn; lia|].
    intros [|i]; [reflexivity|]. cbn [nth]. now rewrite Hn.
Qed.

Lemma previous_total c t : (t < length c)%nat ->
  previous c t = Ok (nth (match t with O => length c - 1 | S t' => t' end) c 0).
Proof.
  intro Ht. unfold previous, index.
  destruct t as [|t'].
  - destruct (nth_error c (length c - 1)) as [x|] eqn:E.
    + now rewrite (nth_error_nth _ _ _ E).
    + apply nth_error_None in E. lia.
  - destruct (nth_error c t') as [x|] eqn:E.
    + now rewrite (nth_error_nth _ _ _ E).
    + apply nth_error_None in E. lia.
Qed.

Lemma ramp_step_written e slope times c t prev :
  previous c t = Ok prev ->
  ramp_step e slope times c t = set_index c t (written e slope times prev t).
Proof.
  intro Hp. unfold ramp_step, written.
  destruct (Np.Qltb _ (nth 0 times 0)); [reflexivity|].
  destruct (Np.Qltb _ (nth 1 times 0)); [now rewrite Hp|].
  destruct (Np.Qltb _ (nth 2 times 0)); [reflexivity|].
  destruct (Np.Qltb _ (nth 3 times 0)); [|reflexivity].
  rewrite Hp. cbn [bind].
  destruct (Np.Qltb (prev + slope) (third_dose e)); reflexivity.
Qed.

(** The loop over the timesteps [k, ..., k+m-1]: it always completes,
    touches no other entry, and each entry it writes is computed from the
    entry before it as that entry is at the end. *)
Lemma ramp_loop_spec e slope times : forall m k c,
  (k + m <= length c)%nat ->
  exists c', ramp_loop e slope times (seq k m) c = Ok c' /\
    length c' = length c /\
    (forall i, (i < k \/ k + m <= i)%nat -> nth i c' 0 = nth i c 0) /\
    (forall i, (k <= i < k + m)%nat ->
       nth i c' 0
       = written e slope times
                 (match i with
                  | O => nth (length c - 1) c 0
                  | S i' => nth i' c' 0
                  end) i).
Proof.
  induction m as [|m IH]; intros k c Hk.
  - exists c. cbn. repeat split; intros; (reflexivity || lia).
  - cbn [seq ramp_loop].
    rewrite (ramp_step_written _ _ _ _ _ _ (previous_total c k ltac:(lia))).
    destruct (set_index_total 0 c k
                (written e slope times
                   (nth (match k with O => length c - 1 | S t' => t' end) c 0) k)
                ltac:(lia)) as (c1 & Hset & Hl1 & Hn1).
    rewrite Hset. cbn [bind].
    destruct (IH (S k) c1 ltac:(lia)) as (c' & Hloop & Hl & Hout & Hin).
    exists c'. split; [exact Hloop|]. split; [congruence|]. split.
    + intros i Hi. rewrite Hout by lia. rewrite Hn1.
      destruct (Nat.eqb_spec i k); [lia | reflexivity].
    + intros i Hi. destruct (Nat.eq_dec i k) as [->|Hne].
      * rewrite Hout by lia. rewrite Hn1, Nat.eqb_refl.
        destruct k as [|k']; [reflexivity|].
        f_equal. rewrite Hout by lia. rewrite Hn1.
        destruct (Nat.eqb_spec k' (S k')); [lia | reflexivity].
      * rewrite Hin by lia. destruct i as [|i']; [lia | reflexivity].
Qed.

(** Every entry of the curve of [set_ramp_ud], from the entry before it;
    at timestep zero [drug_curve[-1]] is the last entry, still zero. *)
Lemma set_ramp_ud_entries e n curve :
  set_ramp_ud e n = Ok curve ->
  ~ ramp e == 0 /\
  exists t0 t1,
    nth_error (transition_times e) 0 = Some t0 /\
    nth_error (transition_times e) 1 = Some t1 /\
    length curve = n /\
    forall t, (t < n)%nat ->
      nth t curve 0
      = written e ((second_dose e - first_dose e) / ramp e) (windows e t0 t1)
                (match t with O => 0 | S t' => nth t' curve 0 end) t.
Proof.
  unfold set_ramp_ud.
  destruct (Np.Qeqb (ramp e) 0) eqn:Er; [discriminate|].
  apply Qeqb_false in Er. unfold index.
  destruct (nth_error (transition_times e) 0) as [t0|]; [|discriminate].
  destruct (nth_error (transition_times e) 1) as [t1|]; [|discriminate].
  cbn [bind]. intro H. split; [exact Er|]. exists t0, t1.
  split; [reflexivity|]. split; [reflexivity|].
  destruct (ramp_loop_spec e ((second_dose e - first_dose e) / ramp e)
              (windows e t0 t1) n 0 (repeat 0 n))
    as (c' & Hloop & Hl & _ & Hin); [rewrite repeat_length; lia|].
  unfold windows in Hloop at 1. rewrite Hloop in H. injection H as <-.
  rewrite repeat_length in Hl. split; [exact Hl|].
  intros t Ht. rewrite Hin by lia. destruct t as [|t']; [|reflexivity].
  f_equal. rewrite repeat_length. apply nth_repeat.
Qed.

(** X18. [set_ramp_ud] raises [ZeroDivisionError] on a ramp of length
    zero and [IndexError] on fewer than two transition times; in every
    other case it returns a curve of [n_timestep] entries. *)
Theorem set_ramp_ud_returns :
  forall (e : Experiment) (n_timestep : nat),
    (ramp e == 0 -> set_ramp_ud e n_timestep = Raise ZeroDivisionError) /\
    (~ ramp e == 0 -> (length (transition_times e) < 2)%nat ->
     set_ramp_ud e n_timestep = Raise IndexError) /\
    (~ ramp e == 0 -> (2 <= length (transition_times e))%nat ->
     exists curve, set_ramp_ud e n_timestep = Ok curve /\
                   length curve = n_timestep).
Proof.
  intros e n. unfold set_ramp_ud. split; [|split].
  - intro H. apply Qeqb_true in H. now rewrite H.
  - intros H Hl. apply Qeqb_false in H. rewrite H. unfold index.
    destruct (transition_times e) as [|t0 [|t1 l]]; cbn in *; try reflexivity; lia.
  - intros H Hl. apply Qeqb_false in H. rewrite H. unfold index.
    destruct (transition_times e) as [|t0 [|t1 l]]; cbn in Hl; try lia.
    cbn [nth_error bind].
    destruct (ramp_loop_spec e ((second_dose e - first_dose e) / ramp e)
                [t0 - ramp e / 2; t0 + ramp e / 2; t1 - ramp e / 2; t1 + ramp e / 2]
                n 0 (repeat 0 n))
      as (c' & Hloop & Hlen & _); [rewrite repeat_length; lia|].
    exists c'. split; [exact Hloop|]. now rewrite repeat_length in Hlen.
Qed.

Lemma set_ramp_ud_returns_witness :
  set_ramp_ud (mkExperiment 0 1 0 0 [1; 2]) 3 = Raise ZeroDivisionError /\
  set_ramp_ud (mkExperiment 0 1 0 2 [1]) 3 = Raise IndexError /\
  exists curve, set_ramp_ud (mkExperiment 0 1 0 2 [1; 2]) 3 = Ok curve /\
                length curve = 3%nat.
Proof.
  split; [|split].
  - apply (set_ramp_ud_returns (mkExperiment 0 1 0 0 [1; 2]) 3). reflexivity.
  - apply (set_ramp_ud_returns (mkExperiment 0 1 0 2 [1]) 3).
    + intro H. discriminate H.
    + cbn. lia.
  - apply (set_ramp_ud_returns (mkExperiment 0 1 0 2 [1; 2]) 3).
    + intro H. discriminate H.
    + cbn. lia.
Defined.

Lemma Qltb_true x y : Np.Qltb x y = true <-> x < y.
Proof.
  unfold Np.Qltb. destruct (Qcompare_spec x y) as [E|L|G].
  - split; [discriminate | intro H; rewrite E in H; exfalso; apply (Qlt_irrefl _ H)].
  - split; [intros _; exact L | reflexivity].
  - split; [discriminate | intro H; exfalso; apply (Qlt_irrefl x); lra].
Qed.

Section Written.

Variables (e : Experiment) (slope t0 t1 : Q) (t : nat).

Let tq := inject_Z (Z.of_nat t).

Lemma written_first prev :
  tq < t0 - ramp e / 2 -> written e slope (windows e t0 t1) prev t = first_dose e.
Proof.
  intro H. unfold written, windows. cbn [nth].
  apply Qltb_true in H. fold tq. now rewrite H.
Qed.

Lemma written_up prev :
  t0 - ramp e / 2 <= tq -> tq < t0 + ramp e / 2 ->
  written e slope (windows e t0 t1) prev t = prev + slope.
Proof.
  intros H0 H1. unfold written, windows. cbn [nth]. fold tq.
  apply Qltb_false in H0. apply Qltb_true in H1. now rewrite H0, H1.
Qed.

Lemma written_hold prev :
  t0 - ramp e / 2 <= tq -> t0 + ramp e / 2 <= tq -> tq < t1 - ramp e / 2 ->
  written e slope (windows e t0 t1) prev t = second_dose e.
Proof.
  intros H0 H1 H2. unfold written, windows. cbn [nth]. fold tq.
  apply Qltb_false in H0, H1. apply Qltb_true in H2. now rewrite H0, H1, H2.
Qed.

Lemma written_down prev :
  t0 - ramp e / 2 <= tq -> t0 + ramp e / 2 <= tq -> t1 - ramp e / 2 <= tq ->
  third_dose e <= prev + slope ->
  written e slope (windows e t0 t1) prev t = third_dose e.
Proof.
  intros H0 H1 H2 H3. unfold written, windows. cbn [nth]. fold tq.
  apply Qltb_false in H0, H1, H2, H3. rewrite H0, H1, H2, H3.
  now destruct (Np.Qltb tq (t1 + ramp e / 2)).
Qed.

Lemma written_after prev :
  t0 - ramp e / 2 <= tq -> t0 + ramp e / 2 <= tq -> t1 - ramp e / 2 <= tq ->
  t1 + ramp e / 2 <= tq ->
  written e slope (windows e t0 t1) prev t = third_dose e.
Proof.
  intros H0 H1 H2 H3. unfold written, windows. cbn [nth]. fold tq.
  apply Qltb_false in H0, H1, H2, H3. now rewrite H0, H1, H2, H3.
Qed.

End Written.

Lemma set_ramp_ud_times e n curve t0 t1 :
  set_ramp_ud e n = Ok curve ->
  nth_error (transition_times e) 0 = Some t0 ->
  nth_error (transition_times e) 1 = Some t1 ->
  forall t, (t < n)%nat ->
    nth t curve 0
    = written e ((second_dose e - first_dose e) / ramp e) (windows e t0 t1)
              (match t with O => 0 | S t' => nth t' curve 0 end) t.
Proof.
  intros H H0 H1.
  destruct (set_ramp_ud_entries e n curve H) as (_ & t0' & t1' & H0' & H1' & _ & Hw).
  rewrite H0 in H0'. rewrite H1 in H1'. injection H0' as <-. injection H1' as <-.
  exact Hw.
Qed.

(** X19. The plateaus of the curve of [set_ramp_ud], for a positive ramp
    and transition times in order: the first dose strictly before
    [transition_times[0] - ramp/2], the second dose from
    [transition_times[0] + ramp/2] up to [transition_times[1] - ramp/2]
    excluded, and the third dose from [transition_times[1] + ramp/2]
    on. *)
Theorem set_ramp_ud_plateaus :
  forall (e : Experiment) (n_timestep : nat) (curve : list Q) (t0 t1 : Q),
    set_ramp_ud e n_timestep = Ok curve ->
    nth_error (transition_times e) 0 = Some t0 ->
    nth_error (transition_times e) 1 = Some t1 ->
    0 < ramp e -> t0 <= t1 ->
    forall t, (t < n_timestep)%nat ->
      (inject_Z (Z.of_nat t) < t0 - ramp e / 2 -> nth t curve 0 = first_dose e) /\
      (t0 + ramp e / 2 <= inject_Z (Z.of_nat t) ->
       inject_Z (Z.of_nat t) < t1 - ramp e / 2 -> nth t curve 0 = second_dose e) /\
      (t1 + ramp e / 2 <= inject_Z (Z.of_nat t) -> nth t curve 0 = third_dose e).
Proof.
  intros e n curve t0 t1 H H0 H1 Hr Hord t Ht.
  pose proof (set_ramp_ud_times e n curve t0 t1 H H0 H1 t Ht) as Hw.
  assert (Hb : 0 < ramp e / 2) by (apply Qlt_shift_div_l; lra).
  split; [|split].
  - intro Hlt. rewrite Hw. now apply written_first.
  - intros Hge Hlt. rewrite Hw. apply written_hold; lra.
  - intro Hge. rewrite Hw. apply written_after; lra.
Qed.

Lemma set_ramp_ud_plateaus_witness :
  (inject_Z (Z.of_nat 4) < 2 - ramp RampExamples.small_ramp / 2 ->
   nth 4 [1; 6 # 2; 20 # 4; 5; 5; 2; 2; 2; 2] 0 = first_dose RampExamples.small_ramp) /\
  (2 + ramp RampExamples.small_ramp / 2 <= inject_Z (Z.of_nat 4) ->
   inject_Z (Z.of_nat 4) < 6 - ramp RampExamples.small_ramp / 2 ->
   nth 4 [1; 6 # 2; 20 # 4; 5; 5; 2; 2; 2; 2] 0 = second_dose RampExamples.small_ramp) /\
  (6 + ramp RampExamples.small_ramp / 2 <= inject_Z (Z.of_nat 4) ->
   nth 4 [1; 6 # 2; 20 # 4; 5; 5; 2; 2; 2; 2] 0 = third_dose RampExamples.small_ramp).
Proof.
  apply (set_ramp_ud_plateaus RampExamples.small_ramp 9
           [1; 6 # 2; 20 # 4; 5; 5; 2; 2; 2; 2] 2 6).
  - vm_compute. reflexivity.
  - reflexivity.
  - reflexivity.
  - reflexivity.
  - discriminate.
  - lia.
Defined.

Lemma Qceiling_next (x : Q) (k : nat) :
  inject_Z (Z.of_nat k) < x -> x <= inject_Z (Z.of_nat (S k)) ->
  Qceiling x = Z.of_nat (S k).
Proof.
  intros Hlo Hhi.
  pose proof (Qle_ceiling x) as H1. pose proof (Qceiling_lt x) as H2.
  assert (Ha : (Z.of_nat k < Qceiling x)%Z) by (rewrite Zlt_Qlt; lra).
  assert (Hb : (Qceiling x - 1 < Z.of_nat (S k))%Z) by (rewrite Zlt_Qlt; lra).
  lia.
Qed.

(** X20. The way up is linear: at a timestep [t] from
    [transition_times[0] - ramp/2] up to [transition_times[0] + ramp/2]
    excluded, the curve holds the first dose plus as many increments
    [(second_dose - first_dose)/ramp] as timesteps were taken in the
    window, [t] included.  When the window opens at timestep zero or
    before, the count starts from [drug_curve[-1]], which is zero and not
    the first dose. *)
Theorem set_ramp_ud_ramp_up :
  forall (e : Experiment) (n_timestep : nat) (curve : list Q) (t0 t1 : Q),
    set_ramp_ud e n_timestep = Ok curve ->
    nth_error (transition_times e) 0 = Some t0 ->
    nth_error (transition_times e) 1 = Some t1 ->
    forall t, (t < n_timestep)%nat ->
      t0 - ramp e / 2 <= inject_Z (Z.of_nat t) ->
      inject_Z (Z.of_nat t) < t0 + ramp e / 2 ->
      (0 < t0 - ramp e / 2 ->
       nth t curve 0
       == first_dose e
          + (inject_Z (Z.of_nat t) + 1 - inject_Z (Qceiling (t0 - ramp e / 2)))
            * ((second_dose e - first_dose e) / ramp e)) /\
      (t0 - ramp e / 2 <= 0 ->
       nth t curve 0
       == (inject_Z (Z.of_nat t) + 1) * ((second_dose e - first_dose e) / ramp e)).
Proof.
  intros e n curve t0 t1 H H0 H1.
  pose proof (set_ramp_ud_times e n curve t0 t1 H H0 H1) as Hw.
  set (slope := (second_dose e - first_dose e) / ramp e) in *.
  induction t as [|t IH]; intros Ht Hlo Hhi.
  - split.
    + intro Hpos. change (inject_Z (Z.of_nat 0)) with 0 in Hlo. lra.
    + intros _. rewrite Hw by lia. rewrite written_up by assumption.
      change (inject_Z (Z.of_nat 0)) with 0. ring.
  - assert (Hs : inject_Z (Z.of_nat (S t)) == inject_Z (Z.of_nat t) + 1).
    { rewrite Nat2Z.inj_succ. unfold Z.succ. rewrite inject_Z_plus. reflexivity. }
    rewrite Hw by lia. rewrite written_up by assumption.
    destruct (Qlt_le_dec (inject_Z (Z.of_nat t)) (t0 - ramp e / 2)) as [Hbefore|Hin].
    + split.
      * intros _. rewrite Hw by lia. rewrite written_first by assumption.
        rewrite (Qceiling_next _ t) by assumption. rewrite Hs. ring.
      * intro Hneg. exfalso.
        assert (0 <= inject_Z (Z.of_nat t))
          by (change 0 with (inject_Z 0); rewrite <- Zle_Qle; lia).
        lra.
    + destruct (IH ltac:(lia) Hin ltac:(lra)) as [IHa IHb]. split.
      * intro Hpos. rewrite (IHa Hpos), Hs. ring.
      * intro Hneg. rewrite (IHb Hneg), Hs. ring.
Qed.

Lemma set_ramp_ud_ramp_up_witness :
  (0 < 2 - ramp RampExamples.small_ramp / 2 ->
   nth 2 [1; 6 # 2; 20 # 4; 5; 5; 2; 2; 2; 2] 0
   == first_dose RampExamples.small_ramp
      + (inject_Z (Z.of_nat 2) + 1
         - inject_Z (Qceiling (2 - ramp RampExamples.small_ramp / 2)))
        * ((second_dose RampExamples.small_ramp - first_dose RampExamples.small_ramp)
           / ramp RampExamples.small_ramp)) /\
  (2 - ramp RampExamples.small_ramp / 2 <= 0 ->
   nth 2 [1; 6 # 2; 20 # 4; 5; 5; 2; 2; 2; 2] 0
   == (inject_Z (Z.of_nat 2) + 1)
      * ((second_dose RampExamples.small_ramp - first_dose RampExamples.small_ramp)
         / ramp RampExamples.small_ramp)).
Proof.
  apply (set_ramp_ud_ramp_up RampExamples.small_ramp 9
           [1; 6 # 2; 20 # 4; 5; 5; 2; 2; 2; 2] 2 6).
  - vm_compute. reflexivity.
  - reflexivity.
  - reflexivity.
  - lia.
  - discriminate.
  - reflexivity.
Defined.

(** X21. There is no way down: when the second dose is at least the
    first and at least the third, the hold at the second dose spans a
    timestep ([transition_times[0] + ramp + 1 <= transition_times[1]])
    and starts at timestep zero or later, the curve is equal to the third
    dose from [transition_times[1] - ramp/2] on, the whole window of the
    second ramp included. *)
Theorem set_ramp_ud_no_ramp_down :
  forall (e : Experiment) (n_timestep : nat) (curve : list Q) (t0 t1 : Q),
    set_ramp_ud e n_timestep = Ok curve ->
    nth_error (transition_times e) 0 = Some t0 ->
    nth_error (transition_times e) 1 = Some t1 ->
    0 < ramp e ->
    first_dose e <= second_dose e -> third_dose e <= second_dose e ->
    0 <= t0 + ramp e / 2 -> t0 + ramp e + 1 <= t1 ->
    forall t, (t < n_timestep)%nat ->
      t1 - ramp e / 2 <= inject_Z (Z.of_nat t) ->
      nth t curve 0 = third_dose e.
Proof.
  intros e n curve t0 t1 H H0 H1 Hr H12 H32 Hstart Hspan.
  pose proof (set_ramp_ud_times e n curve t0 t1 H H0 H1) as Hw.
  assert (Hb : 0 < ramp e / 2) by (apply Qlt_shift_div_l; lra).
  assert (Hhalf : ramp e / 2 + ramp e / 2 == ramp e) by (field).
  assert (Hslope : 0 <= (second_dose e - first_dose e) / ramp e).
  { apply Qle_shift_div_l; [exact Hr | lra]. }
  set (slope := (second_dose e - first_dose e) / ramp e) in *.
  induction t as [|t IH]; intros Ht Hge.
  - change (inject_Z (Z.of_nat 0)) with 0 in Hge. lra.
  - assert (Hs : inject_Z (Z.of_nat (S t)) == inject_Z (Z.of_nat t) + 1).
    { rewrite Nat2Z.inj_succ. unfold Z.succ. rewrite inject_Z_plus. reflexivity. }
    rewrite Hw by lia.
    destruct (Qlt_le_dec (inject_Z (Z.of_nat t)) (t1 - ramp e / 2)) as [Hhold|Hpast].
    + apply written_down; try lra.
      rewrite Hw by lia.
      assert (Hprev : written e slope (windows e t0 t1)
                        (match t with O => 0 | S t' => nth t' curve 0 end) t
                      = second_dose e) by (apply written_hold; lra).
      rewrite Hprev. lra.
    + apply written_down; try lra.
      rewrite (IH ltac:(lia) Hpast). lra.
Qed.

Lemma set_ramp_ud_no_ramp_down_witness :
  nth 5 [1; 6 # 2; 20 # 4; 5; 5; 2; 2; 2; 2] 0 = third_dose RampExamples.small_ramp.
Proof.
  apply (set_ramp_ud_no_ramp_down RampExamples.small_ramp 9
           [1; 6 # 2; 20 # 4; 5; 5; 2; 2; 2; 2] 2 6).
  - vm_compute. reflexivity.
  - reflexivity.
  - reflexivity.
  - reflexivity.
  - discriminate.
  - discriminate.
  - discriminate.
  - discriminate.
  - lia.
  - discriminate.
Defined.

(** ** Regimens and event times *)

Import Survival.







Lemma filter_first (f : nat -> bool) : forall n a,
  match filter f (seq a n) with
  | [] => forall i, (a <= i < a + n)%nat -> f i = false
  | k :: _ => (a <= k < a + n)%nat /\ f k = true /\
              forall j, (a <= j < k)%nat -> f j = false
  end.
Proof.
  induction n as [|n IH]; intro a; cbn [seq filter].
  - intros i Hi. lia.
  - destruct (f a) eqn:Ea.
    + split; [lia|]. split; [exact Ea|]. intros j Hj. lia.
    + specialize (IH (S a)). destruct (filter f (seq (S a) n)) as [|k rest].
      * intros i Hi. destruct (Nat.eq_dec i a) as [->|]; [exact Ea | apply IH; lia].
      * destruct IH as (Hk & Hfk & Hbefore). split; [lia|]. split; [exact Hfk|].
        intros j Hj. destruct (Nat.eq_dec j a) as [->|]; [exact Ea | apply Hbefore; lia].
Qed.

(** The indices kept by [np.argwhere] and the event that follows. *)
Lemma event_first p (test : Q -> bool) c :
  ((forall t, (t < length c)%nat -> test (nth t c 0) = false) ->
   event p c (argwhere test c)
   = (0%Z, Scalar (inject_Z (Z.of_nat (length c)) * timestep_scale p))) /\
  (forall k, (k < length c)%nat -> test (nth k c 0) = true ->
     (forall j, (j < k)%nat -> test (nth j c 0) = false) ->
     event p c (argwhere test c)
     = (1%Z, Array [inject_Z (Z.of_nat k) * timestep_scale p])).
Proof.
  unfold argwhere.
  pose proof (filter_first (fun i => test (nth i c 0)) (length c) 0) as H.
  destruct (filter _ (seq 0 (length c))) as [|k' rest].
  - split; [reflexivity|]. intros k Hk Ht _. rewrite H in Ht by lia. discriminate.
  - destruct H as (Hk' & Ht' & Hb'). split.
    + intro Hall. rewrite Hall in Ht' by lia. discriminate.
    + intros k Hk Ht Hb. cbn [event].
      assert (k = k') as ->; [|reflexivity].
      destruct (Nat.lt_trichotomy k k') as [Hlt|[Heq|Hgt]]; [|exact Heq|].
      * rewrite Hb' in Ht by lia. discriminate.
      * rewrite Hb in Ht' by lia. discriminate.
Qed.

(** X23. [extinction_time] reports the first timestep at which the
    population size (the row sum of a two-dimensional [counts]) is
    strictly below [thresh], in units of [timestep_scale] and as an array
    of one entry, with [event_obs = 1]; when the size never goes below
    [thresh] it reports [event_obs = 0] and the number of timesteps, as a
    number. *)
Theorem extinction_time_first_below :
  forall (p : PopParams) (counts : counts_array) (thresh : Q),
    let c := population_size counts in
    ((forall t, (t < length c)%nat -> thresh <= nth t c 0) ->
     extinction_time p counts thresh
     = (0%Z, Scalar (inject_Z (Z.of_nat (length c)) * timestep_scale p))) /\
    (forall k, (k < length c)%nat -> nth k c 0 < thresh ->
       (forall j, (j < k)%nat -> thresh <= nth j c 0) ->
       extinction_time p counts thresh
       = (1%Z, Array [inject_Z (Z.of_nat k) * timestep_scale p])).
Proof.
  intros p counts thresh c. unfold extinction_time. fold c.
  destruct (event_first p (fun x => Np.Qltb x thresh) c) as [Hnone Hfirst].
  split.
  - intro Hall. apply Hnone. intros t Ht. apply Qltb_false. now apply Hall.
  - intros k Hk Hlt Hbefore. apply Hfirst; [exact Hk | now apply Qltb_true |].
    intros j Hj. apply Qltb_false. now apply Hbefore.
Qed.

Lemma extinction_time_first_below_witness :
  ((forall t, (t < length (population_size SurvivalExamples.dip))%nat ->
      1 <= nth t (population_size SurvivalExamples.dip) 0) ->
   extinction_time Examples.two_genotypes SurvivalExamples.dip 1
   = (0%Z, Scalar (inject_Z (Z.of_nat
                      (length (population_size SurvivalExamples.dip)))
                   * timestep_scale Examples.two_genotypes))) /\
  extinction_time Examples.two_genotypes SurvivalExamples.dip 1
  = (1%Z, Array [inject_Z (Z.of_nat 1) * timestep_scale Examples.two_genotypes]).
Proof.
  destruct (extinction_time_first_below Examples.two_genotypes
              SurvivalExamples.dip 1) as [Hnone Hfirst].
  split; [exact Hnone|].
  apply Hfirst.
  - cbn. lia.
  - reflexivity.
  - intros j Hj. assert (j = 0%nat) as -> by lia. discriminate.
Defined.

(** X24. [resistance_time] reads a threshold below 1 as a fraction of
    [max_cells] and any other as a number of cells; it reports the first
    timestep at which the count of the genotype strictly exceeds it (in
    units of [timestep_scale], as an array of one entry), or
    [event_obs = 0] and the number of timesteps when none does.  On a
    two-dimensional [counts] one of whose rows has no such genotype it
    raises [IndexError]. *)
Theorem resistance_time_first_above :
  forall (p : PopParams) (counts : counts_array) (genotype : nat) (thresh : Q),
    let level := if Np.Qltb thresh 1 then thresh * inject_Z (max_cells p)
                 else thresh in
    (forall c, genotype_counts counts genotype = Ok c ->
       ((forall t, (t < length c)%nat -> nth t c 0 <= level) ->
        resistance_time p counts genotype thresh
        = Ok (0%Z, Scalar (inject_Z (Z.of_nat (length c)) * timestep_scale p))) /\
       (forall k, (k < length c)%nat -> level < nth k c 0 ->
          (forall j, (j < k)%nat -> nth j c 0 <= level) ->
          resistance_time p counts genotype thresh
          = Ok (1%Z, Array [inject_Z (Z.of_nat k) * timestep_scale p]))) /\
    (forall rows, counts = TwoD rows ->
       Exists (fun row => (length row <= genotype)%nat) rows ->
       resistance_time p counts genotype thresh = Raise IndexError).
Proof.
  intros p counts genotype thresh level. split.
  - intros c Hc. unfold resistance_time. rewrite Hc. cbn [bind]. fold level.
    destruct (event_first p (fun x => Np.Qltb level x) c) as [Hnone Hfirst].
    split.
    + intro Hall. f_equal. apply Hnone. intros t Ht. apply Qltb_false. now apply Hall.
    + intros k Hk Hlt Hbefore. f_equal.
      apply Hfirst; [exact Hk | now apply Qltb_true |].
      intros j Hj. apply Qltb_false. now apply Hbefore.
  - intros rows -> Hex. unfold resistance_time, genotype_counts, Np.column.
    assert (Hcol : mapM (fun row : list Q => index row genotype) rows
                   = Raise IndexError).
    { induction Hex as [row rows Hshort | row rows _ IH].
      - cbn [mapM]. unfold index.
        destruct (nth_error row genotype) eqn:E; [|reflexivity].
        assert (Hsome : nth_error row genotype <> None) by congruence.
        apply nth_error_Some in Hsome. lia.
      - cbn [mapM]. rewrite IH.
        destruct (index row genotype) as [x|e| |] eqn:E; cbn [bind]; try reflexivity.
        + unfold index in E. destruct (nth_error row genotype); [discriminate|].
          now injection E as <-.
        + unfold index in E. destruct (nth_error row genotype); discriminate.
        + unfold index in E. destruct (nth_error row genotype); discriminate. }
    now rewrite Hcol.
Qed.

Lemma resistance_time_first_above_witness :
  resistance_time Examples.two_genotypes SurvivalExamples.dip 0 (1 # 100)
  = Ok (0%Z, Scalar (inject_Z (Z.of_nat (length [2; 0; 1]))
                     * timestep_scale Examples.two_genotypes)) /\
  resistance_time Examples.two_genotypes SurvivalExamples.dip 0 1
  = Ok (1%Z, Array [inject_Z (Z.of_nat 0) * timestep_scale Examples.two_genotypes]) /\
  resistance_time Examples.two_genotypes SurvivalExamples.dip 2 1
  = Raise IndexError.
Proof.
  split; [|split].
  - destruct (resistance_time_first_above Examples.two_genotypes
                SurvivalExamples.dip 0 (1 # 100)) as [H _].
    destruct (H [2; 0; 1] eq_refl) as [Hnone _]. apply Hnone.
    intros [|[|[|t]]] Ht; cbn in Ht; try lia; discriminate.
  - destruct (resistance_time_first_above Examples.two_genotypes
                SurvivalExamples.dip 0 1) as [H _].
    destruct (H [2; 0; 1] eq_refl) as [_ Hfirst]. apply Hfirst.
    + cbn. lia.
    + reflexivity.
    + intros j Hj. lia.
  - destruct (resistance_time_first_above Examples.two_genotypes
                SurvivalExamples.dip 2 1) as [_ H].
    apply (H [[2; 1]; [0; 0]; [1; 0]] eq_refl).
    constructor. cbn. lia.
Defined.

(** ** Keyword options *)

Import Kwargs.

Section Options.

Variable value : Type.
Variable none : value.

Lemma keys_update (d : dict value) k v :
  In k (keys d) -> keys (update d k v) = keys d.
Proof.
  unfold keys. induction d as [|[k' v'] d IH]; cbn; [tauto|].
  intros [->|Hin].
  - now rewrite String.eqb_refl.
  - destruct (String.eqb_spec k' k); [reflexivity|]. cbn. now rewrite IH.
Qed.

Lemma get_update (d : dict value) k v k0 :
  In k (keys d) ->
  get none (update d k v) k0 = if String.eqb k k0 then v else get none d k0.
Proof.
  unfold keys. induction d as [|[k' v'] d IH]; cbn; [tauto|].
  intros Hin. destruct (String.eqb_spec k' k) as [->|Hne].
  - cbn. destruct (String.eqb_spec k k0); reflexivity.
  - destruct Hin as [->|Hin]; [congruence|]. cbn. rewrite IH by assumption.
    destruct (String.eqb_spec k' k0) as [->|]; [|reflexivity].
    destruct (String.eqb_spec k k0); [congruence | reflexivity].
Qed.

(** The inner loop, for one attribute of the object. *)
Lemma inner_loop (kwargs : dict value) paramkey v :
  forall (opts : list string) (d : dict value),
    In paramkey (keys d) ->
    let d' := fold_left
                (fun d optkey =>
                   if String.eqb paramkey optkey then update d paramkey v else d)
                opts d in
    keys d' = keys d /\
    forall k0, get none d' k0
               = if String.eqb paramkey k0 && existsb (String.eqb paramkey) opts
                 then v else get none d k0.
Proof.
  induction opts as [|o opts IH]; intros d Hin; cbn [fold_left existsb].
  - split; [reflexivity|]. intro k0. now rewrite andb_false_r.
  - destruct (String.eqb_spec paramkey o) as [->|Hne].
    + destruct (IH (update d o v)) as [Hk Hg].
      { now rewrite keys_update. }
      split; [now rewrite Hk, keys_update|].
      intro k0. rewrite Hg, get_update by assumption. cbn [orb].
      rewrite andb_true_r.
      destruct (String.eqb o k0); cbn [andb];
        [now destruct (existsb _ opts) | reflexivity].
    + cbn [orb]. now apply IH.
Qed.

Lemma existsb_keys (kwargs : dict value) k :
  existsb (String.eqb k) (keys kwargs) = true <-> In k (keys kwargs).
Proof.
  rewrite existsb_exists. split.
  - intros (x & Hx & He). apply String.eqb_eq in He. now subst.
  - intro H. exists k. split; [exact H | apply String.eqb_refl].
Qed.

Lemma outer_loop (kwargs : dict value) :
  forall (params : list string) (d : dict value),
    incl params (keys d) ->
    let d' := fold_left
                (fun d paramkey =>
                   fold_left
                     (fun d optkey =>
                        if String.eqb paramkey optkey
                        then update d paramkey (get none kwargs paramkey)
                        else d)
                     (keys kwargs) d)
                params d in
    keys d' = keys d /\
    forall k0, get none d' k0
               = if existsb (String.eqb k0) params
                    && existsb (String.eqb k0) (keys kwargs)
                 then get none kwargs k0 else get none d k0.
Proof.
  induction params as [|pk params IH]; intros d Hincl; cbn [fold_left existsb].
  - split; reflexivity.
  - destruct (inner_loop kwargs pk (get none kwargs pk) (keys kwargs) d)
      as [Hk Hg].
    { apply Hincl. now left. }
    set (d1 := fold_left _ (keys kwargs) d) in *.
    destruct (IH d1) as [Hk' Hg'].
    { rewrite Hk. intros x Hx. apply Hincl. now right. }
    split; [congruence|].
    intro k0. rewrite Hg', Hg.
    destruct (String.eqb_spec k0 pk) as [->|Hne].
    + rewrite String.eqb_refl. cbn [orb andb].
      destruct (existsb (String.eqb pk) params); cbn [andb];
        destruct (existsb (String.eqb pk) (keys kwargs)); reflexivity.
    + destruct (String.eqb_spec pk k0) as [->|_]; [congruence|]. reflexivity.
Qed.

End Options.

(** X25. The keyword options of [PopParams] (and of
    [reset_drug_conc_curve]) only overwrite: the object keeps its
    attributes, in the same order; an attribute named by a keyword takes
    the value passed, every other attribute keeps its value; a keyword
    that names no attribute is dropped without an error or a new
    attribute. *)
Theorem apply_kwargs_overwrites :
  forall (value : Type) (none : value) (self_dict kwargs : dict value),
    keys (apply_kwargs none self_dict kwargs) = keys self_dict /\
    (forall k, In k (keys self_dict) -> In k (keys kwargs) ->
       get none (apply_kwargs none self_dict kwargs) k = get none kwargs k) /\
    (forall k, ~ In k (keys kwargs) ->
       get none (apply_kwargs none self_dict kwargs) k = get none self_dict k) /\
    (forall k, ~ In k (keys self_dict) ->
       ~ In k (keys (apply_kwargs none self_dict kwargs)) /\
       get none (apply_kwargs none self_dict kwargs) k = get none self_dict k).
Proof.
  intros value none d kwargs. unfold apply_kwargs.
  destruct (outer_loop value none kwargs (keys d) d (incl_refl _)) as [Hk Hg].
  split; [exact Hk|]. split; [|split].
  - intros k Hd Hkw. rewrite Hg.
    apply existsb_keys in Hd. apply existsb_keys in Hkw.
    now rewrite Hd, Hkw.
  - intros k Hkw. rewrite Hg.
    destruct (existsb (String.eqb k) (keys kwargs)) eqn:E.
    + apply existsb_keys in E. contradiction.
    + now rewrite andb_false_r.
  - intros k Hd. split; [now rewrite Hk|]. rewrite Hg.
    destruct (existsb (String.eqb k) (keys d)) eqn:E.
    + apply existsb_keys in E. contradiction.
    + reflexivity.
Qed.

Lemma apply_kwargs_overwrites_witness :
  get 0%Z (apply_kwargs 0%Z [("passage"%string, 0%Z); ("dilution"%string, 40%Z)]
                        [("dilutoin"%string, 10%Z); ("dilution"%string, 20%Z)])
      "dilution"%string = 20%Z /\
  get 0%Z (apply_kwargs 0%Z [("passage"%string, 0%Z); ("dilution"%string, 40%Z)]
                        [("dilutoin"%string, 10%Z); ("dilution"%string, 20%Z)])
      "passage"%string = 0%Z /\
  ~ In "dilutoin"%string
       (keys (apply_kwargs 0%Z [("passage"%string, 0%Z); ("dilution"%string, 40%Z)]
                           [("dilutoin"%string, 10%Z); ("dilution"%string, 20%Z)])).
Proof.
  destruct (apply_kwargs_overwrites Z 0%Z
              [("passage"%string, 0%Z); ("dilution"%string, 40%Z)]
              [("dilutoin"%string, 10%Z); ("dilution"%string, 20%Z)])
    as (_ & Hover & Hkeep & Hdrop).
  split; [|split].
  - apply Hover; cbn; tauto.
  - apply Hkeep. cbn. intros [H|[H|[]]]; discriminate.
  - apply Hdrop. cbn. intros [H|[H|[]]]; discriminate.
Defined.

(** ** Initialization from the library alone *)





(** ** The run up to fixation *)

Lemma index_Some_nth {X} (l : list X) i x d : index l i = Ok x -> nth i l d = x.
Proof.
  unfold index. destruct (nth_error l i) eqn:E; [|discriminate].
  intro H. injection H as <-. now apply nth_error_nth.
Qed.

Lemma stop_loop_trace gen fit (p : PopParams) ng P draws f :
  Np.argmax Np.Qltb (fit p (max_dose p)) = Ok f ->
  forall fuel counts mm traj mm',
    stop_loop gen fit fuel p ng P draws counts mm = Some (Ok (traj, mm')) ->
    length counts = S mm ->
    (exists rest, traj = counts ++ rest) /\
    length traj = S mm' /\
    (forall k, (mm <= k < mm')%nat ->
       abm gen p k ng P (nth k traj []) (draws k) = Ok (nth (S k) traj [])) /\
    (forall k, (mm < k < mm')%nat -> Np.argmax Z.ltb (nth k traj []) <> Ok f).
Proof.
  intro Hf. induction fuel as [|fuel IH]; intros counts mm traj mm' H Hlen;
    [discriminate|].
  cbn [stop_loop] in H.
  destruct (index counts mm) as [row| | |] eqn:Hrow; cbn [bind step_then] in H;
    try discriminate.
  apply (index_Some_nth _ _ _ []) in Hrow.
  destruct (abm gen p mm ng P row (draws mm)) as [v| | |] eqn:Habm;
    cbn [bind step_then] in H; try discriminate.
  unfold append_row in H.
  destruct (Nat.eqb_spec (length v) ng) as [Hv|_]; cbn [bind step_then] in H;
    [|discriminate].
  destruct (check_stop_cond fit p v (S mm)) as [stop| | |] eqn:Hstop;
    cbn [bind step_then] in H; try discriminate.
  assert (Hat : forall rest, nth mm ((counts ++ [v]) ++ rest) [] = row).
  { intro rest. rewrite <- app_assoc, app_nth1 by lia. exact Hrow. }
  assert (Hnext : forall rest, nth (S mm) ((counts ++ [v]) ++ rest) [] = v).
  { intro rest. rewrite <- app_assoc, app_nth2 by lia.
    now replace (S mm - length counts)%nat with 0%nat by lia. }
  destruct stop.
  - injection H as <- <-. split; [now exists [v]|].
    split; [rewrite length_app; cbn; lia|]. split.
    + intros k Hk. assert (k = mm) as -> by lia.
      rewrite <- (app_nil_r (counts ++ [v])), Hat, Hnext. exact Habm.
    + intros k Hk. lia.
  - apply IH in H; [|rewrite length_app; cbn; lia].
    destruct H as ((rest & ->) & Hl & Hsteps & Hnot).
    split; [exists (v :: rest); now rewrite <- app_assoc|].
    split; [exact Hl|]. split.
    + intros k Hk. destruct (Nat.eq_dec k mm) as [->|Hne].
      * rewrite Hat, Hnext. exact Habm.
      * apply Hsteps. lia.
    + intros k Hk. destruct (Nat.eq_dec k (S mm)) as [->|Hne].
      * rewrite Hnext.
        destruct (check_stop_cond_ok fit p v (S mm) false Hstop)
          as (_ & f' & m & Hf' & Hm & Hb).
        rewrite Hf in Hf'. injection Hf' as <-. rewrite Hm.
        intro Heq. injection Heq as ->. now rewrite Nat.eqb_refl in Hb.
      * apply Hnot. lia.
Qed.

(** X27. In the stop-condition mode every row of the trajectory returned
    is what [abm] gives on the row before it, and the run stops at the
    first timestep from one on at which the most frequent genotype is the
    fittest at the maximal dose: at no earlier row, the initial row
    apart, is it so.  The initial row is not tested, so at least one
    step is taken. *)
Theorem run_abm_stops_at_first_fixation :
  forall gen_abm_fl_md gen_fit_land (p : PopParams) (draws : nat -> Rand.Draws)
         (ng : nat) (P : list (list Q)) (traj : list (list Z)) (mm f : nat),
    stop_condition p = true ->
    n_genotype p = Some ng ->
    random_mutations ng ng = Ok P ->
    Np.argmax Np.Qltb (gen_fit_land p (max_dose p)) = Ok f ->
    run_abm gen_abm_fl_md gen_fit_land p draws = Some (Ok (traj, mm)) ->
    (1 <= mm)%nat /\
    (forall k, (k < mm)%nat ->
       abm gen_abm_fl_md p k ng P (nth k traj []) (draws k)
       = Ok (nth (S k) traj [])) /\
    (forall k, (1 <= k < mm)%nat -> Np.argmax Z.ltb (nth k traj []) <> Ok f) /\
    Np.argmax Z.ltb (nth mm traj []) = Ok f.
Proof.
  intros gen fit p draws ng P traj mm f Hstop Hng HP Hf Hrun.
  destruct (run_abm_cases _ _ _ _ _ _ _ Hng Hrun) as (Hlen & _ & _ & Hmode).
  rewrite Hstop in Hmode.
  unfold run_abm, run_abm_with in Hrun. rewrite Hng in Hrun. cbn [bind] in Hrun.
  rewrite HP in Hrun. cbn [bind step_then] in Hrun. rewrite Hstop in Hrun.
  destruct (init_counts p) as [c|]; cbn [bind step_then] in Hrun; [|discriminate].
  destruct (first_row ng c) as [row0| | |]; cbn [bind step_then] in Hrun;
    try discriminate.
  destruct (stop_loop_spec gen fit p ng P draws (n_timestep p)
              (S (n_timestep p)) [row0] 0) as [_ Hspec]; [lia | lia |].
  destruct (Hspec _ _ Hrun) as (_ & f' & Hf' & Hlast).
  rewrite Hf in Hf'. injection Hf' as <-.
  destruct (stop_loop_trace gen fit p ng P draws f Hf _ _ _ _ _ Hrun eq_refl)
    as (_ & _ & Hsteps & Hnot).
  split; [lia|]. split; [|split].
  - intros k Hk. apply Hsteps. lia.
  - intros k Hk. apply Hnot. lia.
  - rewrite <- Hlast. f_equal.
    destruct traj as [|r traj] using rev_ind; [cbn in Hlen; lia|].
    rewrite last_last. rewrite length_app in Hlen. cbn in Hlen.
    rewrite app_nth2 by lia. now replace (mm - length traj)%nat with 0%nat by lia.
Qed.

Lemma run_abm_stops_at_first_fixation_witness :
  (1 <= 1)%nat /\
  (forall k, (k < 1)%nat ->
     abm Examples.zero_fitness Examples.short_horizon k 2 (trans_form 1)
         (nth k [[1; 0]; [1; 0]]%Z []) (Examples.quiet 2)
     = Ok (nth (S k) [[1; 0]; [1; 0]]%Z [])) /\
  (forall k, (1 <= k < 1)%nat ->
     Np.argmax Z.ltb (nth k [[1; 0]; [1; 0]]%Z []) <> Ok 0%nat) /\
  Np.argmax Z.ltb (nth 1 [[1; 0]; [1; 0]]%Z []) = Ok 0%nat.
Proof.
  apply (run_abm_stops_at_first_fixation Examples.zero_fitness
           Examples.first_fittest Examples.short_horizon
           (fun _ => Examples.quiet 2) 2 (trans_form 1) [[1; 0]; [1; 0]]%Z 1 0).
  - reflexivity.
  - reflexivity.
  - vm_compute. reflexivity.
  - reflexivity.
  - vm_compute. reflexivity.
Defined.

(** ** Non-negative trajectories *)



Section Nonnegative.

Variable gen_abm_fl_md : PopParams -> nat -> list Z -> list Q.
Variable gen_fit_land : PopParams -> Q -> list Q.
Variables (p : PopParams) (ng : nat) (P : list (list Q)).
Variable draws : nat -> Rand.Draws.

Hypothesis Hmodel : is_pharmacodynamic p = false.
Hypothesis Hmax : (0 <= max_cells p)%Z.
Hypothesis Hshape : forall k counts,
    length counts = ng -> length (gen_abm_fl_md p k counts) = ng.
Hypothesis Hfit : forall k g, (g < ng)%nat ->
    (Rand.n_mut_draw (draws k) g <= nth g (Rand.daughter_draw (draws k)) 0)%Z.



End Nonnegative.



(** ** A negative count does not survive the next step *)

Lemma existsb_scaled_negative counts rate :
  0 < rate -> Exists (fun c => (c < 0)%Z) counts ->
  existsb (fun l => Np.Qltb l 0) (scaled counts rate) = true.
Proof.
  intros Hr Hex. apply existsb_exists. apply Exists_exists in Hex.
  destruct Hex as (c & Hin & Hc). exists (inject_Z c * rate). split.
  - unfold scaled. apply in_map_iff. now exists c.
  - apply Qltb_true.
    assert (Hq : inject_Z c < 0) by (change 0 with (inject_Z 0); now rewrite <- Zlt_Qlt).
    setoid_replace 0 with (0 * rate) by ring.
    apply Qmult_lt_compat_r; assumption.
Qed.

(** X29. In the default death model, without passaging and with a
    positive death rate per timestep, [abm] refuses a vector that holds a
    negative count: the Poisson draw of the deaths gets a negative mean
    and raises [ValueError].  The negative count that a step can return
    therefore stops the run at the next step. *)
Theorem abm_rejects_negative_counts :
  forall gen_abm_fl_md (p : PopParams) (mm n_genotype : nat)
         (P : list (list Q)) (counts : list Z) (dr : Rand.Draws),
    is_pharmacodynamic p = false ->
    passage p = false ->
    0 < death_rate p * timestep_scale p ->
    Exists (fun c => (c < 0)%Z) counts ->
    abm gen_abm_fl_md p mm n_genotype P counts dr = Raise ValueError.
Proof.
  intros gen p mm n P counts dr Hm Hpass Hrate Hneg.
  unfold abm, abm_update. rewrite (passage_cells_disabled p mm counts Hpass).
  cbn [bind]. unfold birth_death_mutation, births_and_deaths. rewrite Hm.
  unfold Rand.poisson. now rewrite (existsb_scaled_negative _ _ Hrate Hneg).
Qed.

Lemma abm_rejects_negative_counts_witness :
  abm Examples.unit_fitness Examples.two_genotypes 1 2 (trans_form 1)
      [-1; 3]%Z Examples.excess_mutation
  = Raise ValueError.
Proof.
  apply (abm_rejects_negative_counts Examples.unit_fitness Examples.two_genotypes
           1 2 (trans_form 1) [-1; 3]%Z Examples.excess_mutation).
  - reflexivity.
  - reflexivity.
  - reflexivity.
  - constructor. lia.
Defined.
